(** * uSTL predicate algorithms ([upredalgo.h]): model and verification

  The header defines generic algorithms over iterator ranges.  The model
  takes the iterators to be positions in one flat store of elements, the
  way pointers into arrays behave: a cursor is an address, dereferencing
  reads the store, assigning through a cursor updates it.  Two ranges that
  live in the same container are two address intervals of the same store,
  so that [remove_if], which hands the same cursor to [remove_copy_if] as
  input and as output, really reads and writes the same cells.

  Every loop of the header is a [while] over an explicit state.  The
  loops test [first != last], which says nothing about termination on its
  own, so the model runs them on fuel and the theorems show how much fuel
  a valid range needs. *)

From Stdlib Require Import Arith Bool List Lia Sorted PeanoNat.
Import ListNotations.

Set Implicit Arguments.

Module ustl.

(** ** Store and cursors *)

Definition cursor := nat.

Section Store.
Variable T : Type.

Definition mem := cursor -> T.

(** [*p = v] *)
Definition assign (m : mem) (p : cursor) (v : T) : mem :=
    fun q => if q =? p then v else m q.

(** The elements of [[first, last)], in order. *)
Definition range (m : mem) (first last : cursor) : list T :=
    map m (seq first (last - first)).
End Store.

(** Modelled from the spec: [distance] and [advance] are declared outside
    [upredalgo.h]; the spec gives the midpoint as
    [first + distance(first,last)/2], so [distance] is the number of steps
    from [first] to [last] and [advance] returns the cursor moved by an
    offset. *)
Definition distance (first last : cursor) : nat := last - first.
Definition advance (i : cursor) (offset : nat) : cursor := i + offset.

(** ** Loops *)

(** [while (cond) body;] run for at most [fuel] iterations of the body.
    The condition is tested before fuel is looked at, so a loop that makes
    [n] iterations succeeds with fuel [n] and fails with any less. *)
Fixpoint while (S : Type) (fuel : nat) (cond : S -> bool) (body : S -> S)
    (s : S) : option S :=
  if cond s then
    match fuel with
    | O => None
    | Datatypes.S n => while n cond body (body s)
    end
  else Some s.

Definition bind (A B : Type) (x : option A) (k : A -> option B) : option B :=
  match x with
  | Some a => k a
  | None => None
  end.

Notation "' p <- e ;; k" := (bind e (fun p => k))
  (at level 61, p pattern, e at next level, right associativity).

Section Algorithms.
Variable T : Type.

(** *** Linear scans *)

(** [copy_if] (lines 37-47): state is the store and the two cursors. *)
Definition copy_if (fuel : nat) (m : mem T) (first last result : cursor)
      (pred : T -> bool) : option (mem T * cursor) :=
    '(m', _, result') <-
      while fuel
        (fun '(_, first, _) => negb (first =? last))
        (fun '(m, first, result) =>
           if pred (m first)
           then (assign m result (m first), first + 1, result + 1)
           else (m, first + 1, result))
        (m, first, result) ;;
    Some (m', result').

(** [find_if] (lines 53-59). *)
Definition find_if (fuel : nat) (m : mem T) (first last : cursor)
    (pred : T -> bool) : option cursor :=
  while fuel
    (fun first => negb (first =? last) && negb (pred (m first)))
    (fun first => first + 1)
    first.

(** [adjacent_find] (lines 62-70).  The [for] loop steps [first] in its
    condition, before the test against [last], so the state holds [first]
    as already stepped: it starts at [(first, first + 1)] and the body
    steps both cursors.  The third component is the [return (prev)] taken
    inside the loop, which ends it; without one the function returns
    [last]. *)
Definition adjacent_find (fuel : nat) (m : mem T) (first last : cursor)
    (p : T -> T -> bool) : option cursor :=
  if negb (first =? last) then
    '(_, _, returned) <-
      while fuel
        (fun '(_, first, returned) =>
           match returned with
           | Some _ => false
           | None => negb (first =? last)
           end)
        (fun '(prev, first, _) =>
           if p (m prev) (m first) then (prev, first, Some prev)
           else (prev + 1, first + 1, None))
        (first, first + 1, None) ;;
    Some (match returned with Some prev => prev | None => last end)
  else Some last.

(** [mismatch] (lines 75-82). *)
Definition mismatch (fuel : nat) (m : mem T) (first1 last1 first2 : cursor)
      (comp : T -> T -> bool) : option (cursor * cursor) :=
    while fuel
      (fun '(first1, first2) =>
         negb (first1 =? last1) && comp (m first1) (m first2))
      (fun '(first1, first2) => (first1 + 1, first2 + 1))
      (first1, first2).

(** [equal] (lines 88-92). *)
Definition equal (fuel : nat) (m : mem T) (first1 last1 first2 : cursor)
      (comp : T -> T -> bool) : option bool :=
    '(r1, _) <- mismatch fuel m first1 last1 first2 comp ;;
    Some (r1 =? last1).

(** [count_if] (lines 99-107).  [total] never exceeds the length of the
      range, so the [size_t] counter cannot wrap. *)
Definition count_if (fuel : nat) (m : mem T) (first last : cursor)
      (pred : T -> bool) : option nat :=
    '(_, total) <-
      while fuel
        (fun '(first, _) => negb (first =? last))
        (fun '(first, total) =>
           if pred (m first) then (first + 1, total + 1)
           else (first + 1, total))
        (first, 0) ;;
    Some total.

(** [replace_if] (lines 114-120): a [void] function, its result is the
      store it leaves. *)
Definition replace_if (fuel : nat) (m : mem T) (first last : cursor)
      (pred : T -> bool) (new_value : T) : option (mem T) :=
    '(m', _) <-
      while fuel
        (fun '(_, first) => negb (first =? last))
        (fun '(m, first) =>
           if pred (m first) then (assign m first new_value, first + 1)
           else (m, first + 1))
        (m, first) ;;
    Some m'.

(** [replace_copy_if] (lines 130-135).  The function is declared to
      return an [OutputIterator], but its body is the [for] loop alone:
      control reaches the closing brace without a [return].  The caller
      gets no cursor, which the model records as [None] next to the store
      the loop leaves. *)
Definition replace_copy_if (fuel : nat) (m : mem T)
      (first last result : cursor) (pred : T -> bool) (new_value : T)
      : option (mem T * option cursor) :=
    '(m', _, _) <-
      while fuel
        (fun '(_, first, _) => negb (first =? last))
        (fun '(m, first, result) =>
           (assign m result (if pred (m first) then new_value else m first),
            first + 1, result + 1))
        (m, first, result) ;;
    Some (m', None).

(** [remove_copy_if] (lines 144-151): the element is stored through
      [result], and [result] stepped, in the branch where [pred] holds of
      the element. *)
Definition remove_copy_if (fuel : nat) (m : mem T)
      (first last result : cursor) (pred : T -> bool)
      : option (mem T * cursor) :=
    '(m', _, result') <-
      while fuel
        (fun '(_, first, _) => negb (first =? last))
        (fun '(m, first, result) =>
           if pred (m first)
           then (assign m result (m first), first + 1, result + 1)
           else (m, first + 1, result))
        (m, first, result) ;;
    Some (m', result').

(** [remove_if] (lines 162-166): the output cursor is [first] itself. *)
Definition remove_if (fuel : nat) (m : mem T) (first last : cursor)
      (pred : T -> bool) : option (mem T * cursor) :=
    remove_copy_if fuel m first last first pred.

(** *** Bisection *)

Definition bisect_cond (s : cursor * cursor) : bool :=
    let '(first, last) := s in negb (first =? last).

(** Body of the loop of [lower_bound] (lines 178-182). *)
Definition lower_bound_body (m : mem T) (value : T) (comp : T -> T -> bool)
      (s : cursor * cursor) : cursor * cursor :=
    let '(first, last) := s in
    let mid := advance first (distance first last / 2) in
    if comp (m mid) value then (mid + 1, last) else (first, mid).

(** [lower_bound] (lines 173-185), returns [first]. *)
Definition lower_bound (fuel : nat) (m : mem T) (first last : cursor)
      (value : T) (comp : T -> T -> bool) : option cursor :=
    '(first', _) <-
      while fuel bisect_cond (lower_bound_body m value comp) (first, last) ;;
    Some first'.

(** [binary_search] (lines 190-195): declared to return a
      [ForwardIterator], and returns [last] or [found]. *)
Definition binary_search (fuel : nat) (m : mem T) (first last : cursor)
      (value : T) (comp : T -> T -> bool) : option cursor :=
    'found <- lower_bound fuel m first last value comp ;;
    Some (if (found =? last) || comp value (m found) then last else found).

(** Body of the loop of [upper_bound] (lines 206-210). *)
Definition upper_bound_body (m : mem T) (value : T) (comp : T -> T -> bool)
      (s : cursor * cursor) : cursor * cursor :=
    let '(first, last) := s in
    let mid := advance first (distance first last / 2) in
    if comp value (m mid) then (first, mid) else (mid + 1, last).

(** [upper_bound] (lines 201-213), returns [last]. *)
Definition upper_bound (fuel : nat) (m : mem T) (first last : cursor)
      (value : T) (comp : T -> T -> bool) : option cursor :=
    '(_, last') <-
      while fuel bisect_cond (upper_bound_body m value comp) (first, last) ;;
    Some last'.

(** [equal_range] (lines 218-226): one bisection, then a forward scan of
      [rv.second]. *)
Definition equal_range (fuel : nat) (m : mem T) (first last : cursor)
      (value : T) (comp : T -> T -> bool) : option (cursor * cursor) :=
    'rv_first <- lower_bound fuel m first last value comp ;;
    'rv_second <-
      while fuel
        (fun second => negb (second =? last) && negb (comp value (m second)))
        (fun second => second + 1)
        rv_first ;;
    Some (rv_first, rv_second).

End Algorithms.

End ustl.

(** ** What the claims talk about *)

Section Ordering.
Variable T : Type.
Variable comp : T -> T -> bool.

(** Neither element is ordered before the other. *)
Definition equivalent (x y : T) : Prop :=
    comp x y = false /\ comp y x = false.

(** The contract on a comparator that is used as an ordering. *)
Record StrictWeakOrdering : Prop := {
    swo_irreflexive : forall x, comp x x = false;
    swo_transitive :
      forall x y z, comp x y = true -> comp y z = true -> comp x z = true;
    swo_equivalent_transitive :
      forall x y z, equivalent x y -> equivalent y z -> equivalent x z
  }.

(** Sortedness: no element is ordered strictly before an earlier one. *)
Definition sorted (l : list T) : Prop :=
    StronglySorted (fun a b => comp b a = false) l.

Definition sorted_range (m : ustl.mem T) (first last : ustl.cursor) : Prop :=
    sorted (ustl.range m first last).

(** [value] can be put in front of position [p] and the range stays
      sorted. *)
Definition insertion_point (m : ustl.mem T) (first last : ustl.cursor)
      (value : T) (p : ustl.cursor) : Prop :=
    first <= p <= last /\
    sorted (ustl.range m first p ++ value :: ustl.range m p last).

(** [value] occurs in the range, up to equivalence. *)
Definition occurs (m : ustl.mem T) (first last : ustl.cursor) (value : T)
      : Prop :=
    exists j, first <= j < last /\ equivalent (m j) value.

(** The first sentence of the description of [lower_bound], word for
      word: [p] is the leftmost position with no element before it that
      satisfies [comp (element, value)]. *)
Definition leftmost_with_none_before (m : ustl.mem T)
      (first last : ustl.cursor) (value : T) (p : ustl.cursor) : Prop :=
    first <= p <= last /\
    (forall j, first <= j < p -> comp (m j) value = false) /\
    (forall q, first <= q <= last ->
       (forall j, first <= j < q -> comp (m j) value = false) -> p <= q).

(** The description of [binary_search] as a yes-or-no answer: under a
      reading [truth] of what the function returns as a boolean, the answer
      is yes exactly when [value] occurs in the range. *)
Definition answers_membership (truth : ustl.cursor -> bool) (fuel : nat)
      (m : ustl.mem T) (first last : ustl.cursor) (value : T) : Prop :=
    exists r,
      ustl.binary_search fuel m first last value comp = Some r /\
      (truth r = true <-> occurs m first last value).
End Ordering.

(** A store of numbers holding [l] from address 0 on, and 0 elsewhere. *)
Definition store_of (l : list nat) : ustl.mem nat := fun p => nth p l 0.

Definition is_even (x : nat) : bool := Nat.even x.

(** The sorted sequence of the scenarios of the specification. *)
Definition scenario : ustl.mem nat := store_of [1; 3; 3; 3; 5; 7].

(** * Loops: total correctness *)

(** An invariant that the body keeps while it lowers a measure carries
    over to the state in which the loop stops, and the loop does stop
    within as many iterations as the measure allows. *)
Lemma while_total (S : Type) (cond : S -> bool) (body : S -> S)
    (Inv : S -> Prop) (mu : S -> nat) :
  (forall s, Inv s -> cond s = true -> Inv (body s) /\ mu (body s) < mu s) ->
  forall fuel s, Inv s -> mu s <= fuel ->
  exists s', ustl.while fuel cond body s = Some s' /\ Inv s' /\ cond s' = false.
Proof.
  intros Hstep fuel.
  induction fuel as [|n IH]; intros s HI Hmu; simpl;
    destruct (cond s) eqn:E; eauto.
  - destruct (Hstep s HI E); lia.
  - destruct (Hstep s HI E). apply IH; [assumption | lia].
Qed.

(** Runs the loop in the goal with invariant [Inv] and measure [mu].  It
    leaves the three premises (the body keeps the invariant and lowers the
    measure; the invariant holds at entry; the fuel covers the measure) and
    the goal itself with the loop replaced by its final state. *)
Ltac run_loop Inv mu :=
  match goal with
  | |- context [ustl.while ?fuel ?c ?b ?s] =>
      let Hbody := fresh "Hbody" in
      assert (Hbody : forall x, Inv x -> c x = true ->
                                Inv (b x) /\ mu (b x) < mu x);
      [ | destruct (@while_total _ c b Inv mu Hbody fuel s)
            as (sfin & Hrun & Hinv & Hstop);
          [ | | rewrite Hrun; simpl ustl.bind; clear Hbody ] ]
  end.

Lemma neq_cursor (a b : nat) : negb (a =? b) = true <-> a <> b.
Proof.
  rewrite negb_true_iff, Nat.eqb_neq. tauto.
Qed.

Lemma eq_cursor (a b : nat) : negb (a =? b) = false <-> a = b.
Proof.
  rewrite negb_false_iff, Nat.eqb_eq. tauto.
Qed.

(** * Ranges of the store *)

Section Ranges.
Variable T : Type.
Implicit Types (m : ustl.mem T) (f p l : ustl.cursor).

Lemma range_length m f l : length (ustl.range m f l) = l - f.
Proof.
  unfold ustl.range. rewrite length_map, length_seq. reflexivity.
Qed.

Lemma range_app m f p l :
  f <= p <= l -> ustl.range m f l = ustl.range m f p ++ ustl.range m p l.
Proof.
  intros H. unfold ustl.range.
  replace (l - f) with ((p - f) + (l - p)) by lia.
  rewrite seq_app, map_app. replace (f + (p - f)) with p by lia.
  reflexivity.
Qed.

Lemma range_one m p : ustl.range m p (p + 1) = [m p].
Proof.
  unfold ustl.range. replace (p + 1 - p) with 1 by lia. reflexivity.
Qed.

Lemma range_snoc m f p :
  f <= p -> ustl.range m f (p + 1) = ustl.range m f p ++ [m p].
Proof.
  intros H. rewrite (@range_app m f p (p + 1)) by lia.
  rewrite range_one. reflexivity.
Qed.

Lemma range_ext m m' f l :
  (forall p, f <= p < l -> m p = m' p) -> ustl.range m f l = ustl.range m' f l.
Proof.
  intros H. apply map_ext_in. intros a Ha. apply in_seq in Ha.
  apply H. lia.
Qed.

Lemma in_range m f l a :
  In a (ustl.range m f l) <-> exists j, f <= j < l /\ m j = a.
Proof.
  unfold ustl.range. rewrite in_map_iff. split.
  - intros (j & Hj & Hin). apply in_seq in Hin. exists j. split; [lia|easy].
  - intros (j & Hj & Hm). exists j. split; [easy|]. apply in_seq. lia.
Qed.

Lemma seq_from_zero (a n : nat) : seq a n = map (fun i => a + i) (seq 0 n).
Proof.
  revert a. induction n as [|n IH]; intros a; [reflexivity|].
  rewrite !seq_S, map_app, <- IH. simpl. reflexivity.
Qed.

Lemma range_from_zero m f n :
  ustl.range m f (f + n) = map (fun i => m (f + i)) (seq 0 n).
Proof.
  unfold ustl.range. replace (f + n - f) with n by lia.
  rewrite (seq_from_zero f n), map_map. reflexivity.
Qed.

Lemma assign_same m p v : ustl.assign m p v p = v.
Proof.
  unfold ustl.assign. rewrite Nat.eqb_refl. reflexivity.
Qed.

Lemma assign_other m p v q : q <> p -> ustl.assign m p v q = m q.
Proof.
  intros H. unfold ustl.assign. apply Nat.eqb_neq in H. rewrite H.
  reflexivity.
Qed.
End Ranges.

(** * The linear scans *)

Section Scans.
Variable T : Type.
Variable m : ustl.mem T.
Variables first last : ustl.cursor.
Hypothesis valid_range : first <= last.
Variable fuel : nat.
Hypothesis enough_fuel : ustl.distance first last <= fuel.

(** What [replace_if] leaves in each cell of the store. *)
Lemma replace_if_cells (pred : T -> bool) (new_value : T) :
  exists m',
    ustl.replace_if fuel m first last pred new_value = Some m' /\
    forall p,
      m' p = if (first <=? p) && (p <? last) && pred (m p) then new_value
             else m p.
Proof.
  unfold ustl.replace_if.
  run_loop
    (fun s : ustl.mem T * ustl.cursor =>
       first <= snd s <= last /\
       forall p,
         fst s p = if (first <=? p) && (p <? snd s) && pred (m p)
                   then new_value else m p)
    (fun s : ustl.mem T * ustl.cursor => last - snd s).
  - intros [m1 f] [Hf Hm1] Hc. simpl in *. apply neq_cursor in Hc.
    assert (Hread : m1 f = m f).
    { rewrite Hm1, Nat.ltb_irrefl, andb_false_r. reflexivity. }
    rewrite Hread.
    assert (Hcells : forall p,
               (if pred (m f) then ustl.assign m1 f new_value else m1) p =
               if (first <=? p) && (p <? f + 1) && pred (m p)
               then new_value else m p).
    { intros p. destruct (Nat.eq_dec p f) as [->|Hne].
      - replace (first <=? f) with true by (symmetry; apply Nat.leb_le; lia).
        replace (f <? f + 1) with true by (symmetry; apply Nat.ltb_lt; lia).
        simpl. destruct (pred (m f)); [|assumption].
        apply assign_same.
      - replace (p <? f + 1) with (p <? f).
        + rewrite <- Hm1. destruct (pred (m f)); [|reflexivity].
          apply assign_other. assumption.
        + destruct (p <? f) eqn:E1; symmetry.
          * apply Nat.ltb_lt in E1. apply Nat.ltb_lt. lia.
          * apply Nat.ltb_ge in E1. apply Nat.ltb_ge. lia. }
    destruct (pred (m f)); simpl; (split; [split; [lia | exact Hcells] | lia]).
  - simpl. split; [lia|]. intros p.
    destruct (first <=? p) eqn:E1; [|reflexivity].
    destruct (p <? first) eqn:E2; [|reflexivity].
    apply Nat.leb_le in E1. apply Nat.ltb_lt in E2. lia.
  - exact enough_fuel.
  - destruct sfin as [m' f]. simpl in *. apply eq_cursor in Hstop. subst f.
    exists m'. split; [reflexivity | apply Hinv].
Qed.

(** What [mismatch] returns. *)
Lemma mismatch_cursors (first2 : ustl.cursor) (comp : T -> T -> bool) :
  exists k,
    ustl.mismatch fuel m first last first2 comp
      = Some (first + k, first2 + k) /\
    first + k <= last /\
    (forall i, i < k -> comp (m (first + i)) (m (first2 + i)) = true) /\
    (first + k = last \/ comp (m (first + k)) (m (first2 + k)) = false).
Proof.
  unfold ustl.mismatch.
  run_loop
    (fun s : ustl.cursor * ustl.cursor =>
       exists k, s = (first + k, first2 + k) /\ first + k <= last /\
                 forall i, i < k ->
                           comp (m (first + i)) (m (first2 + i)) = true)
    (fun s : ustl.cursor * ustl.cursor => last - fst s).
  - intros [f1 f2] (k & Heq & Hk & Hall) Hc. injection Heq as -> ->.
    apply andb_true_iff in Hc. destruct Hc as [Hne Hcomp].
    apply neq_cursor in Hne. simpl. split; [|lia].
    exists (k + 1). split; [f_equal; lia|]. split; [lia|].
    intros i Hi. destruct (Nat.eq_dec i k) as [->|]; [assumption|].
    apply Hall. lia.
  - exists 0. rewrite !Nat.add_0_r. split; [reflexivity|].
    split; [assumption|]. intros i Hi. lia.
  - exact enough_fuel.
  - destruct Hinv as (k & -> & Hk & Hall). exists k.
    split; [reflexivity|]. split; [assumption|]. split; [assumption|].
    apply andb_false_iff in Hstop. destruct Hstop as [Hs|Hs].
    + left. apply eq_cursor in Hs. assumption.
    + right. assumption.
Qed.

(** [count_if] counts the elements that satisfy [pred]. *)
Lemma count_if_counts (pred : T -> bool) :
  ustl.count_if fuel m first last pred
  = Some (length (filter pred (ustl.range m first last))).
Proof.
  unfold ustl.count_if.
  run_loop
    (fun s : ustl.cursor * nat =>
       first <= fst s <= last /\
       snd s = length (filter pred (ustl.range m first (fst s))))
    (fun s : ustl.cursor * nat => last - fst s).
  - intros [f total] [Hf Htotal] Hc. apply neq_cursor in Hc.
    cbn [fst snd] in *.
    assert (Hnext : length (filter pred (ustl.range m first (f + 1))) =
                    if pred (m f) then total + 1 else total).
    { rewrite range_snoc, filter_app, length_app, <- Htotal by lia.
      simpl. destruct (pred (m f)); simpl; lia. }
    destruct (pred (m f)); cbn [fst snd]; (split; [split; [lia|]|lia]);
      symmetry; exact Hnext.
  - cbn [fst snd]. split; [lia|].
    unfold ustl.range. rewrite Nat.sub_diag. reflexivity.
  - exact enough_fuel.
  - destruct sfin as [f total]. cbn [fst snd] in *.
    apply eq_cursor in Hstop. subst f. destruct Hinv as [_ ->]. reflexivity.
Qed.
End Scans.

(** C9 -- [replace_if] changes a cell only if it lies in [[first, last)]
    and its element satisfies [pred]; such a cell ends up holding
    [new_value]; the elements of the range for which [pred] is false, and
    every cell outside the range, are left as they were. *)
Theorem replace_if_frame (T : Type) (fuel : nat) (m : ustl.mem T)
    (first last : ustl.cursor) (pred : T -> bool) (new_value : T) :
  first <= last ->
  ustl.distance first last <= fuel ->
  exists m',
    ustl.replace_if fuel m first last pred new_value = Some m' /\
    (forall p, first <= p < last -> pred (m p) = false -> m' p = m p) /\
    (forall p, first <= p < last -> pred (m p) = true -> m' p = new_value) /\
    (forall p, p < first \/ last <= p -> m' p = m p).
Proof.
  intros Hle Hfuel.
  destruct (replace_if_cells m Hle Hfuel pred new_value) as (m' & Hrun & Hm').
  exists m'. split; [exact Hrun|].
  repeat split; intros p Hp; try intros Hpred; rewrite Hm'.
  - rewrite Hpred, andb_false_r. reflexivity.
  - rewrite Hpred.
    replace (first <=? p) with true by (symmetry; apply Nat.leb_le; lia).
    replace (p <? last) with true by (symmetry; apply Nat.ltb_lt; lia).
    reflexivity.
  - destruct Hp as [Hp|Hp].
    + replace (first <=? p) with false by (symmetry; apply Nat.leb_gt; lia).
      reflexivity.
    + replace (p <? last) with false by (symmetry; apply Nat.ltb_ge; lia).
      rewrite andb_false_r. reflexivity.
Qed.

Lemma replace_if_frame_witness :
  1 <= 5 /\
  ustl.distance 1 5 <= 4 /\
  exists m',
    ustl.replace_if 4 (store_of [7; 1; 2; 3; 4; 8]) 1 5 is_even 0 = Some m' /\
    (forall p, 1 <= p < 5 -> is_even (store_of [7; 1; 2; 3; 4; 8] p) = false ->
               m' p = store_of [7; 1; 2; 3; 4; 8] p) /\
    (forall p, 1 <= p < 5 -> is_even (store_of [7; 1; 2; 3; 4; 8] p) = true ->
               m' p = 0) /\
    (forall p, p < 1 \/ 5 <= p -> m' p = store_of [7; 1; 2; 3; 4; 8] p).
Proof.
  split; [lia|]. split; [vm_compute; lia|].
  apply (@replace_if_frame nat 4 (store_of [7; 1; 2; 3; 4; 8]) 1 5 is_even 0).
  - lia.
  - vm_compute. lia.
Defined.

(** C10 -- the two cursors that [mismatch] returns are the same number
    of steps away from [first1] and from [first2], and [comp] holds of
    every pair of corresponding elements before them. *)
Theorem mismatch_same_offset (T : Type) (fuel : nat) (m : ustl.mem T)
    (first1 last1 first2 : ustl.cursor) (comp : T -> T -> bool) :
  first1 <= last1 ->
  ustl.distance first1 last1 <= fuel ->
  exists r1 r2,
    ustl.mismatch fuel m first1 last1 first2 comp = Some (r1, r2) /\
    first1 <= r1 <= last1 /\ first2 <= r2 /\
    ustl.distance first1 r1 = ustl.distance first2 r2 /\
    (forall i, i < ustl.distance first1 r1 ->
               comp (m (first1 + i)) (m (first2 + i)) = true) /\
    (r1 = last1 \/ comp (m r1) (m r2) = false).
Proof.
  intros Hle Hfuel.
  destruct (mismatch_cursors m Hle Hfuel first2 comp)
    as (k & Hrun & Hk & Hall & Hend).
  exists (first1 + k), (first2 + k). unfold ustl.distance.
  split; [exact Hrun|]. split; [lia|]. split; [lia|]. split; [lia|].
  split; [|exact Hend].
  intros i Hi. apply Hall. lia.
Qed.

Lemma mismatch_same_offset_witness :
  0 <= 3 /\
  ustl.distance 0 3 <= 3 /\
  exists r1 r2,
    ustl.mismatch 3 (store_of [1; 2; 3; 9; 1; 2; 4]) 0 3 4 Nat.eqb
      = Some (r1, r2) /\
    0 <= r1 <= 3 /\ 4 <= r2 /\
    ustl.distance 0 r1 = ustl.distance 4 r2 /\
    (forall i, i < ustl.distance 0 r1 ->
               Nat.eqb (store_of [1; 2; 3; 9; 1; 2; 4] (0 + i))
                       (store_of [1; 2; 3; 9; 1; 2; 4] (4 + i)) = true) /\
    (r1 = 3 \/
     Nat.eqb (store_of [1; 2; 3; 9; 1; 2; 4] r1)
             (store_of [1; 2; 3; 9; 1; 2; 4] r2) = false).
Proof.
  split; [lia|]. split; [vm_compute; lia|].
  apply (@mismatch_same_offset nat 3 (store_of [1; 2; 3; 9; 1; 2; 4]) 0 3 4
           Nat.eqb).
  - lia.
  - vm_compute. lia.
Defined.

(** * The copying scans *)

Section Copies.
Variable T : Type.
Variable m : ustl.mem T.
Variables first last result : ustl.cursor.
Hypothesis valid_range : first <= last.
Variable fuel : nat.
Hypothesis enough_fuel : ustl.distance first last <= fuel.

(** The output starts at or before the input, as it does in place, or
    past its end: a write never lands on an element still to be read. *)
Hypothesis output_behind_or_apart : result <= first \/ last <= result.

(** [remove_copy_if] as it is written: the elements that reach the output
    are those that satisfy [pred], in order, and the cursor returned is one
    past them. *)
Lemma remove_copy_if_keeps_where_pred_holds (pred : T -> bool) :
  exists m',
    ustl.remove_copy_if fuel m first last result pred
      = Some (m', result + length (filter pred (ustl.range m first last))) /\
    ustl.range m' result
      (result + length (filter pred (ustl.range m first last)))
      = filter pred (ustl.range m first last) /\
    (forall p,
       p < result \/
       result + length (filter pred (ustl.range m first last)) <= p ->
       m' p = m p).
Proof.
  unfold ustl.remove_copy_if.
  run_loop
    (fun s : ustl.mem T * ustl.cursor * ustl.cursor =>
       let '(m', f, r) := s in
       first <= f <= last /\
       r = result + length (filter pred (ustl.range m first f)) /\
       ustl.range m' result r = filter pred (ustl.range m first f) /\
       forall p, p < result \/ r <= p -> m' p = m p)
    (fun s : ustl.mem T * ustl.cursor * ustl.cursor => last - snd (fst s)).
  - intros [[m1 f] r] (Hf & Hr & Hout & Hrest) Hc. apply neq_cursor in Hc.
    assert (Hlen : length (filter pred (ustl.range m first f)) <= f - first).
    { rewrite <- (range_length m first f). apply filter_length_le. }
    assert (Hread : m1 f = m f) by (apply Hrest; lia).
    assert (Hnext : filter pred (ustl.range m first (f + 1)) =
                    filter pred (ustl.range m first f) ++
                    (if pred (m f) then [m f] else [])).
    { rewrite range_snoc, filter_app by lia. reflexivity. }
    cbn beta iota. rewrite Hread.
    destruct (pred (m f)) eqn:Hp; (split; [|simpl; lia]); rewrite Hnext.
    + split; [lia|]. rewrite length_app. simpl.
      split; [lia|]. split.
      * rewrite range_snoc by lia. rewrite assign_same. f_equal.
        rewrite <- Hout. apply range_ext. intros p Hp'.
        apply assign_other. lia.
      * intros p Hp'. rewrite assign_other by lia. apply Hrest. lia.
    + rewrite app_nil_r. split; [lia|]. auto.
  - replace (ustl.range m first first) with (@nil T)
      by (unfold ustl.range; rewrite Nat.sub_diag; reflexivity).
    simpl. rewrite Nat.add_0_r. split; [lia|]. split; [reflexivity|].
    split; [|reflexivity].
    unfold ustl.range. rewrite Nat.sub_diag. reflexivity.
  - exact enough_fuel.
  - destruct sfin as [[m' f] r]. destruct Hinv as (Hf & Hr & Hout & Hrest).
    apply eq_cursor in Hstop. subst f r.
    exists m'. auto.
Qed.

End Copies.

(** [remove_if] as it is written: the elements that satisfy [pred] are
    moved to the front, in order, and the cursor returned is [count_if] of
    the predicate past [first]. *)
Lemma remove_if_keeps_where_pred_holds (T : Type) (fuel : nat)
    (m : ustl.mem T) (first last : ustl.cursor) (pred : T -> bool) :
  first <= last ->
  ustl.distance first last <= fuel ->
  exists m' n,
    ustl.count_if fuel m first last pred = Some n /\
    ustl.remove_if fuel m first last pred = Some (m', first + n) /\
    ustl.range m' first (first + n) = filter pred (ustl.range m first last).
Proof.
  intros Hle Hfuel.
  destruct (@remove_copy_if_keeps_where_pred_holds T m first last first Hle
              fuel Hfuel (or_introl (le_n first)) pred)
    as (m' & Hrun & Hout & _).
  exists m', (length (filter pred (ustl.range m first last))).
  split; [apply count_if_counts; assumption|].
  split; assumption.
Qed.

(** [remove_copy_if] and [copy_if] are the same function. *)
Lemma remove_copy_if_is_copy_if (T : Type) (fuel : nat) (m : ustl.mem T)
    (first last result : ustl.cursor) (pred : T -> bool) :
  ustl.remove_copy_if fuel m first last result pred
  = ustl.copy_if fuel m first last result pred.
Proof. reflexivity. Qed.

(** C1 -- [remove_copy_if] on the numbers 1 to 5 with the predicate "is
    even", output at address 10: the code writes the even numbers 2, 4 and
    returns address 12, where the elements for which the predicate is false
    are 1, 3, 5 and the cursor one past them would be 13. *)
Theorem remove_copy_if_copies_the_even_numbers :
  option_map (fun '(m', r) => (ustl.range m' 10 r, r))
    (ustl.remove_copy_if 5 (store_of [1; 2; 3; 4; 5]) 0 5 10 is_even)
  = Some ([2; 4], 12) /\
  filter (fun x => negb (is_even x)) (ustl.range (store_of [1; 2; 3; 4; 5]) 0 5)
  = [1; 3; 5].
Proof. split; reflexivity. Qed.

(** C2 -- [remove_if] on the numbers 1 to 5 with the predicate "is even":
    the code leaves 2, 4 in front and returns position 2, which is
    [count_if] of the predicate and not the length less that count; the
    elements for which the predicate is false are 1, 3, 5. *)
Theorem remove_if_keeps_the_even_numbers :
  option_map (fun '(m', new_last) => (ustl.range m' 0 new_last, new_last))
    (ustl.remove_if 5 (store_of [1; 2; 3; 4; 5]) 0 5 is_even)
  = Some ([2; 4], 2) /\
  ustl.count_if 5 (store_of [1; 2; 3; 4; 5]) 0 5 is_even = Some 2 /\
  filter (fun x => negb (is_even x)) (ustl.range (store_of [1; 2; 3; 4; 5]) 0 5)
  = [1; 3; 5].
Proof. repeat split; reflexivity. Qed.

(** C3 -- [replace_copy_if] on 1, 2, 3 with the predicate "is even",
    replacement 0 and output at address 10: the three cells written hold 1,
    0, 3, and no cursor comes back, where address 13 is expected. *)
Theorem replace_copy_if_returns_no_cursor :
  option_map (fun '(m', r) => (ustl.range m' 10 13, r))
    (ustl.replace_copy_if 3 (store_of [1; 2; 3]) 0 3 10 is_even 0)
  = Some ([1; 0; 3], None).
Proof. reflexivity. Qed.

(** * Orderings *)

Section Orders.
Variable T : Type.
Variable comp : T -> T -> bool.
Hypothesis swo : StrictWeakOrdering comp.

Lemma swo_asymmetric x y : comp x y = true -> comp y x = false.
Proof.
  intros Hxy. destruct (comp y x) eqn:Hyx; [|reflexivity].
  rewrite <- (swo_irreflexive swo x). symmetry.
  exact (swo_transitive swo _ _ _ Hxy Hyx).
Qed.

(** If [x] is before [y], any [z] is after [x] or before [y]. *)
Lemma swo_between x y z :
  comp x y = true -> comp x z = true \/ comp z y = true.
Proof.
  intros Hxy.
  destruct (comp x z) eqn:Hxz; [left; reflexivity|].
  destruct (comp z y) eqn:Hzy; [right; reflexivity|].
  exfalso.
  assert (Hzx : comp z x = false).
  { destruct (comp z x) eqn:E; [|reflexivity].
    rewrite <- Hzy. symmetry. exact (swo_transitive swo _ _ _ E Hxy). }
  assert (Hyz : comp y z = false).
  { destruct (comp y z) eqn:E; [|reflexivity].
    rewrite <- Hxz. symmetry. exact (swo_transitive swo _ _ _ Hxy E). }
  destruct (@swo_equivalent_transitive _ _ swo x z y) as [H _].
  - split; assumption.
  - split; assumption.
  - congruence.
Qed.

Lemma sorted_app (l1 l2 : list T) :
  sorted comp (l1 ++ l2) <->
  sorted comp l1 /\ sorted comp l2 /\
  (forall a b, In a l1 -> In b l2 -> comp b a = false).
Proof.
  unfold sorted. induction l1 as [|x l1 IH]; simpl.
  - split.
    + intros H. split; [constructor|]. split; [assumption|]. tauto.
    + tauto.
  - split.
    + intros H. apply StronglySorted_inv in H. destruct H as [Hs Hx].
      apply IH in Hs. destruct Hs as (H1 & H2 & H12).
      apply Forall_app in Hx. destruct Hx as [Hx1 Hx2].
      split; [constructor; assumption|]. split; [assumption|].
      intros a b [<-|Ha] Hb.
      * rewrite Forall_forall in Hx2. auto.
      * auto.
    + intros (H1 & H2 & H12).
      apply StronglySorted_inv in H1. destruct H1 as [Hs Hx].
      constructor.
      * apply IH. auto.
      * apply Forall_app. split; [assumption|].
        apply Forall_forall. intros b Hb. auto.
Qed.

Lemma sorted_cons (x : T) (l : list T) :
  sorted comp (x :: l) <->
  sorted comp l /\ (forall b, In b l -> comp b x = false).
Proof.
  unfold sorted. split.
  - intros H. apply StronglySorted_inv in H. destruct H as [Hs Hx].
    rewrite Forall_forall in Hx. auto.
  - intros [Hs Hx]. constructor; [assumption|].
    apply Forall_forall. assumption.
Qed.

Variable m : ustl.mem T.
Variables first last : ustl.cursor.
Hypothesis range_is_sorted : sorted_range comp m first last.

Lemma sorted_range_cells i j :
  first <= i -> i < j -> j < last -> comp (m j) (m i) = false.
Proof.
  intros Hi Hij Hj. unfold sorted_range in range_is_sorted.
  rewrite (@range_app T m first j last) in range_is_sorted by lia.
  apply sorted_app in range_is_sorted.
  destruct range_is_sorted as (_ & _ & Hcross).
  apply Hcross; apply in_range; [exists i | exists j]; split; (lia || easy).
Qed.

(** The elements ordered before [value] form a prefix of the range. *)
Lemma before_value_prefix value i j :
  first <= i -> i <= j -> j < last ->
  comp (m j) value = true -> comp (m i) value = true.
Proof.
  intros Hi Hij Hj Hc.
  destruct (Nat.eq_dec i j) as [->|Hne]; [assumption|].
  destruct (swo_between (m i) Hc) as [H|H]; [|assumption].
  rewrite sorted_range_cells in H by lia. discriminate.
Qed.

(** The elements ordered after [value] form a suffix of the range. *)
Lemma after_value_suffix value i j :
  first <= i -> i <= j -> j < last ->
  comp value (m i) = true -> comp value (m j) = true.
Proof.
  intros Hi Hij Hj Hc.
  destruct (Nat.eq_dec i j) as [->|Hne]; [assumption|].
  destruct (swo_between (m j) Hc) as [H|H]; [assumption|].
  rewrite sorted_range_cells in H by lia. discriminate.
Qed.

(** Where [value] may be inserted, cell by cell. *)
Lemma insertion_point_cells value p :
  insertion_point comp m first last value p <->
  first <= p <= last /\
  (forall j, first <= j < p -> comp value (m j) = false) /\
  (forall j, p <= j < last -> comp (m j) value = false).
Proof.
  unfold insertion_point. split.
  - intros [Hp Hs]. split; [assumption|].
    apply sorted_app in Hs. destruct Hs as (_ & Hs & Hcross).
    apply sorted_cons in Hs. destruct Hs as [_ Hv]. split.
    + intros j Hj. apply Hcross; [|left; reflexivity].
      apply in_range. exists j. split; [lia|reflexivity].
    + intros j Hj. apply Hv. apply in_range. exists j.
      split; [lia|reflexivity].
  - intros (Hp & Hbefore & Hafter). split; [assumption|].
    pose proof range_is_sorted as Hs. unfold sorted_range in Hs.
    rewrite (@range_app T m first p last) in Hs by lia.
    apply sorted_app in Hs. destruct Hs as (H1 & H2 & Hcross).
    apply sorted_app. split; [assumption|]. split.
    + apply sorted_cons. split; [assumption|].
      intros b Hb. apply in_range in Hb. destruct Hb as (j & Hj & <-).
      apply Hafter. lia.
    + intros a b Ha [<-|Hb]; [|auto].
      apply in_range in Ha. destruct Ha as (j & Hj & <-).
      apply Hbefore. lia.
Qed.
End Orders.

(** * Bisection *)

Section Bisection.
Variable T : Type.
Variable comp : T -> T -> bool.
Variable m : ustl.mem T.
Variable value : T.

(** The midpoint of a non-empty interval lies inside it: halving rounds
    down, so it may be [f] itself and is never [l]. *)
Lemma midpoint_inside (f l : ustl.cursor) :
  f < l -> f <= ustl.advance f (ustl.distance f l / 2) < l.
Proof.
  intros H. unfold ustl.advance, ustl.distance.
  assert ((l - f) / 2 < l - f) by (apply Nat.div_lt; lia).
  lia.
Qed.

Lemma lower_bound_body_shrinks (f l : ustl.cursor) :
  f < l ->
  f <= fst (ustl.lower_bound_body m value comp (f, l)) /\
  fst (ustl.lower_bound_body m value comp (f, l))
    <= snd (ustl.lower_bound_body m value comp (f, l)) /\
  snd (ustl.lower_bound_body m value comp (f, l)) <= l /\
  ustl.distance (fst (ustl.lower_bound_body m value comp (f, l)))
                (snd (ustl.lower_bound_body m value comp (f, l)))
    < ustl.distance f l.
Proof.
  intros H. pose proof (midpoint_inside H) as Hmid.
  unfold ustl.lower_bound_body.
  set (mid := ustl.advance f (ustl.distance f l / 2)) in *.
  destruct (comp (m mid) value); cbn [fst snd]; unfold ustl.distance; lia.
Qed.

Lemma upper_bound_body_shrinks (f l : ustl.cursor) :
  f < l ->
  f <= fst (ustl.upper_bound_body m value comp (f, l)) /\
  fst (ustl.upper_bound_body m value comp (f, l))
    <= snd (ustl.upper_bound_body m value comp (f, l)) /\
  snd (ustl.upper_bound_body m value comp (f, l)) <= l /\
  ustl.distance (fst (ustl.upper_bound_body m value comp (f, l)))
                (snd (ustl.upper_bound_body m value comp (f, l)))
    < ustl.distance f l.
Proof.
  intros H. pose proof (midpoint_inside H) as Hmid.
  unfold ustl.upper_bound_body.
  set (mid := ustl.advance f (ustl.distance f l / 2)) in *.
  destruct (comp value (m mid)); cbn [fst snd]; unfold ustl.distance; lia.
Qed.

Variables first last : ustl.cursor.
Hypothesis valid_range : first <= last.
Variable fuel : nat.
Hypothesis enough_fuel : ustl.distance first last <= fuel.

Lemma lower_bound_returns :
  exists p, ustl.lower_bound fuel m first last value comp = Some p /\
            first <= p <= last.
Proof.
  unfold ustl.lower_bound.
  run_loop
    (fun s : ustl.cursor * ustl.cursor =>
       first <= fst s /\ fst s <= snd s /\ snd s <= last)
    (fun s : ustl.cursor * ustl.cursor => ustl.distance (fst s) (snd s)).
  - intros [f l] (H1 & H2 & H3) Hc. apply neq_cursor in Hc.
    assert (Hlt : f < l) by (simpl in *; lia).
    pose proof (lower_bound_body_shrinks Hlt). simpl in *. lia.
  - simpl. lia.
  - exact enough_fuel.
  - destruct sfin as [f l]. simpl in *. exists f. split; [reflexivity|lia].
Qed.

Lemma upper_bound_returns :
  exists p, ustl.upper_bound fuel m first last value comp = Some p /\
            first <= p <= last.
Proof.
  unfold ustl.upper_bound.
  run_loop
    (fun s : ustl.cursor * ustl.cursor =>
       first <= fst s /\ fst s <= snd s /\ snd s <= last)
    (fun s : ustl.cursor * ustl.cursor => ustl.distance (fst s) (snd s)).
  - intros [f l] (H1 & H2 & H3) Hc. apply neq_cursor in Hc.
    assert (Hlt : f < l) by (simpl in *; lia).
    pose proof (upper_bound_body_shrinks Hlt). simpl in *. lia.
  - simpl. lia.
  - exact enough_fuel.
  - destruct sfin as [f l]. simpl in *. exists l. split; [reflexivity|lia].
Qed.

Hypothesis swo : StrictWeakOrdering comp.
Hypothesis range_is_sorted : sorted_range comp m first last.

(** [lower_bound] splits the range: before the cursor it returns every
    element is ordered before [value], from it on none is. *)
Lemma lower_bound_splits :
  exists p,
    ustl.lower_bound fuel m first last value comp = Some p /\
    first <= p <= last /\
    (forall j, first <= j < p -> comp (m j) value = true) /\
    (forall j, p <= j < last -> comp (m j) value = false).
Proof.
  unfold ustl.lower_bound.
  run_loop
    (fun s : ustl.cursor * ustl.cursor =>
       (first <= fst s /\ fst s <= snd s /\ snd s <= last) /\
       (forall j, first <= j < fst s -> comp (m j) value = true) /\
       (forall j, snd s <= j < last -> comp (m j) value = false))
    (fun s : ustl.cursor * ustl.cursor => ustl.distance (fst s) (snd s)).
  - intros [f l] (Hb & Hlow & Hhigh) Hc. apply neq_cursor in Hc.
    cbn [fst snd] in Hb, Hlow, Hhigh.
    assert (Hlt : f < l) by lia.
    pose proof (lower_bound_body_shrinks Hlt) as Hshrink.
    pose proof (midpoint_inside Hlt) as Hmid.
    cbv beta. split; [|cbn [fst snd]; apply Hshrink].
    split; [lia|]. clear Hshrink.
    unfold ustl.lower_bound_body.
    set (mid := ustl.advance f (ustl.distance f l / 2)) in *.
    destruct (comp (m mid) value) eqn:Hcmp; cbn [fst snd]; split; try assumption.
    + intros j Hj.
      eapply before_value_prefix with (j := mid); eauto; lia.
    + intros j Hj.
      destruct (comp (m j) value) eqn:E; [|reflexivity].
      rewrite <- Hcmp. symmetry.
      eapply before_value_prefix with (j := j); eauto; lia.
  - simpl. split; [lia|]. split; intros j Hj; lia.
  - exact enough_fuel.
  - destruct sfin as [f l]. simpl in *. apply eq_cursor in Hstop. subst l.
    exists f. split; [reflexivity|]. split; [lia|]. tauto.
Qed.

(** [upper_bound] splits the range: before the cursor it returns no
    element is ordered after [value], from it on every element is. *)
Lemma upper_bound_splits :
  exists p,
    ustl.upper_bound fuel m first last value comp = Some p /\
    first <= p <= last /\
    (forall j, first <= j < p -> comp value (m j) = false) /\
    (forall j, p <= j < last -> comp value (m j) = true).
Proof.
  unfold ustl.upper_bound.
  run_loop
    (fun s : ustl.cursor * ustl.cursor =>
       (first <= fst s /\ fst s <= snd s /\ snd s <= last) /\
       (forall j, first <= j < fst s -> comp value (m j) = false) /\
       (forall j, snd s <= j < last -> comp value (m j) = true))
    (fun s : ustl.cursor * ustl.cursor => ustl.distance (fst s) (snd s)).
  - intros [f l] (Hb & Hlow & Hhigh) Hc. apply neq_cursor in Hc.
    cbn [fst snd] in Hb, Hlow, Hhigh.
    assert (Hlt : f < l) by lia.
    pose proof (upper_bound_body_shrinks Hlt) as Hshrink.
    pose proof (midpoint_inside Hlt) as Hmid.
    cbv beta. split; [|cbn [fst snd]; apply Hshrink].
    split; [lia|]. clear Hshrink.
    unfold ustl.upper_bound_body.
    set (mid := ustl.advance f (ustl.distance f l / 2)) in *.
    destruct (comp value (m mid)) eqn:Hcmp; cbn [fst snd]; split; try assumption.
    + intros j Hj.
      eapply after_value_suffix with (i := mid); eauto; lia.
    + intros j Hj.
      destruct (comp value (m j)) eqn:E; [|reflexivity].
      rewrite <- Hcmp. symmetry.
      eapply after_value_suffix with (i := j); eauto; lia.
  - simpl. split; [lia|]. split; intros j Hj; lia.
  - exact enough_fuel.
  - destruct sfin as [f l]. simpl in *. apply eq_cursor in Hstop. subst l.
    exists f. split; [reflexivity|]. split; [lia|]. tauto.
Qed.
End Bisection.

Section EqualRange.
Variable T : Type.
Variable comp : T -> T -> bool.
Variable m : ustl.mem T.
Variable value : T.
Variables first last : ustl.cursor.
Hypothesis valid_range : first <= last.
Variable fuel : nat.
Hypothesis enough_fuel : ustl.distance first last <= fuel.
Hypothesis swo : StrictWeakOrdering comp.
Hypothesis range_is_sorted : sorted_range comp m first last.

(** The forward scan of [equal_range] stops where [upper_bound] does. *)
Lemma equal_range_scan :
  exists lb ub,
    ustl.lower_bound fuel m first last value comp = Some lb /\
    ustl.upper_bound fuel m first last value comp = Some ub /\
    ustl.equal_range fuel m first last value comp = Some (lb, ub) /\
    first <= lb /\ lb <= ub /\ ub <= last /\
    (forall j, lb <= j < last -> comp (m j) value = false) /\
    (forall j, first <= j < ub -> comp value (m j) = false).
Proof.
  destruct (lower_bound_splits value valid_range enough_fuel swo
              range_is_sorted) as (lb & Hlb & Hlb_in & Hlb_lo & Hlb_hi).
  destruct (upper_bound_splits value valid_range enough_fuel swo
              range_is_sorted) as (ub & Hub & Hub_in & Hub_lo & Hub_hi).
  assert (Hle : lb <= ub).
  { destruct (le_lt_dec lb ub) as [|Hlt]; [assumption|]. exfalso.
    assert (H1 : comp (m ub) value = true) by (apply Hlb_lo; lia).
    assert (H2 : comp value (m ub) = true) by (apply Hub_hi; lia).
    rewrite (swo_asymmetric swo _ _ H1) in H2. discriminate. }
  exists lb, ub. split; [exact Hlb|]. split; [exact Hub|].
  split; [|repeat split; (assumption || lia)].
  unfold ustl.equal_range. rewrite Hlb. simpl ustl.bind.
  run_loop
    (fun s : ustl.cursor =>
       lb <= s <= last /\ forall j, lb <= j < s -> comp value (m j) = false)
    (fun s : ustl.cursor => last - s).
  - intros s [Hs Hscan] Hc. apply andb_true_iff in Hc.
    destruct Hc as [Hne Hcmp]. apply neq_cursor in Hne.
    apply negb_true_iff in Hcmp.
    split; [|lia]. split; [lia|].
    intros j Hj. destruct (Nat.eq_dec j s) as [->|]; [assumption|].
    apply Hscan. lia.
  - split; [lia|]. intros j Hj. lia.
  - unfold ustl.distance in enough_fuel. lia.
  - destruct Hinv as [Hs Hscan]. do 2 f_equal.
    apply andb_false_iff in Hstop.
    destruct (lt_eq_lt_dec sfin ub) as [[Hlt|Heq]|Hgt]; [|assumption|].
    + exfalso. destruct Hstop as [Hstop|Hstop].
      * apply eq_cursor in Hstop. lia.
      * apply negb_false_iff in Hstop.
        rewrite Hub_lo in Hstop by lia. discriminate.
    + exfalso.
      assert (H1 : comp value (m ub) = false) by (apply Hscan; lia).
      rewrite Hub_hi in H1 by lia. discriminate.
Qed.
End EqualRange.

(** * The numbers under [<], for the examples *)

Lemma ltb_strict_weak_ordering : StrictWeakOrdering Nat.ltb.
Proof.
  split.
  - intros x. apply Nat.ltb_irrefl.
  - intros x y z Hxy Hyz. apply Nat.ltb_lt in Hxy, Hyz. apply Nat.ltb_lt. lia.
  - intros x y z [H1 H2] [H3 H4]. apply Nat.ltb_ge in H1, H2, H3, H4.
    split; apply Nat.ltb_ge; lia.
Qed.

Lemma scenario_sorted : sorted_range Nat.ltb scenario 0 6.
Proof.
  unfold sorted_range, sorted.
  cbv [ustl.range scenario store_of map seq nth Nat.sub].
  repeat constructor.
Qed.

(** * The bisection family on sorted ranges *)

(** C4 -- on a range sorted under a strict weak ordering, [lower_bound]
    returns the position [p] with every element before [p] ordered before
    [value] and no element from [p] on ordered before it: the leftmost
    position such that no element at or after it satisfies
    [comp (element, value)], and the furthermost one such that every
    element before it does.  It is the first position at which [value] can
    be inserted with the range staying sorted, and every element equivalent
    to [value] lies at or after it. *)
Theorem lower_bound_first_insertion_point (T : Type) (fuel : nat)
    (m : ustl.mem T) (first last : ustl.cursor) (value : T)
    (comp : T -> T -> bool) :
  StrictWeakOrdering comp ->
  sorted_range comp m first last ->
  first <= last ->
  ustl.distance first last <= fuel ->
  exists p,
    ustl.lower_bound fuel m first last value comp = Some p /\
    first <= p <= last /\
    (forall j, first <= j < p -> comp (m j) value = true) /\
    (forall j, p <= j < last -> comp (m j) value = false) /\
    (forall q, first <= q <= last ->
       (forall j, q <= j < last -> comp (m j) value = false) -> p <= q) /\
    (forall q, first <= q <= last ->
       (forall j, first <= j < q -> comp (m j) value = true) -> q <= p) /\
    insertion_point comp m first last value p /\
    (forall q, insertion_point comp m first last value q -> p <= q) /\
    (forall j, first <= j < last -> equivalent comp (m j) value -> p <= j).
Proof.
  intros Hswo Hsorted Hle Hfuel.
  destruct (lower_bound_splits value Hle Hfuel Hswo Hsorted)
    as (p & Hrun & Hp & Hlo & Hhi).
  assert (Hleft : forall q, first <= q <= last ->
            (forall j, q <= j < last -> comp (m j) value = false) -> p <= q).
  { intros q Hq Hnone. destruct (le_lt_dec p q) as [|Hlt]; [assumption|].
    exfalso. specialize (Hnone q). rewrite Hlo in Hnone by lia.
    assert (true = false) by (apply Hnone; lia). discriminate. }
  exists p. repeat (split; [assumption || lia|]).
  split; [|split; [|split]].
  - intros q Hq Hall. destruct (le_lt_dec q p) as [|Hlt]; [assumption|].
    exfalso. specialize (Hall p). rewrite Hhi in Hall by lia.
    assert (false = true) by (apply Hall; lia). discriminate.
  - apply (insertion_point_cells Hsorted). split; [assumption|].
    split; [|assumption].
    intros j Hj. apply (swo_asymmetric Hswo). apply Hlo. assumption.
  - intros q Hq. apply (insertion_point_cells Hsorted) in Hq.
    destruct Hq as (Hq & _ & Hafter). apply Hleft; assumption.
  - intros j Hj [Hjv _]. destruct (le_lt_dec p j) as [|Hlt]; [assumption|].
    rewrite Hlo in Hjv by lia. discriminate.
Qed.

Lemma lower_bound_first_insertion_point_witness :
  StrictWeakOrdering Nat.ltb /\
  sorted_range Nat.ltb scenario 0 6 /\
  0 <= 6 /\
  ustl.distance 0 6 <= 6 /\
  exists p,
    ustl.lower_bound 6 scenario 0 6 3 Nat.ltb = Some p /\
    0 <= p <= 6 /\
    (forall j, 0 <= j < p -> Nat.ltb (scenario j) 3 = true) /\
    (forall j, p <= j < 6 -> Nat.ltb (scenario j) 3 = false) /\
    (forall q, 0 <= q <= 6 ->
       (forall j, q <= j < 6 -> Nat.ltb (scenario j) 3 = false) -> p <= q) /\
    (forall q, 0 <= q <= 6 ->
       (forall j, 0 <= j < q -> Nat.ltb (scenario j) 3 = true) -> q <= p) /\
    insertion_point Nat.ltb scenario 0 6 3 p /\
    (forall q, insertion_point Nat.ltb scenario 0 6 3 q -> p <= q) /\
    (forall j, 0 <= j < 6 -> equivalent Nat.ltb (scenario j) 3 -> p <= j).
Proof.
  split; [exact ltb_strict_weak_ordering|].
  split; [exact scenario_sorted|].
  split; [lia|]. split; [vm_compute; lia|].
  apply (@lower_bound_first_insertion_point nat 6 scenario 0 6 3 Nat.ltb).
  - exact ltb_strict_weak_ordering.
  - exact scenario_sorted.
  - lia.
  - vm_compute. lia.
Defined.

(** C4, as it is worded -- on the sorted range 1, 2, 3 and the value 3,
    [lower_bound] returns position 2, and 1 and 2 before it are both
    ordered before 3: position 2 is not one with no such element before it,
    and the leftmost position of that kind is position 0. *)
Lemma lower_bound_has_smaller_elements_before :
  StrictWeakOrdering Nat.ltb /\
  sorted_range Nat.ltb (store_of [1; 2; 3]) 0 3 /\
  ustl.lower_bound 3 (store_of [1; 2; 3]) 0 3 3 Nat.ltb = Some 2 /\
  ~ leftmost_with_none_before Nat.ltb (store_of [1; 2; 3]) 0 3 3 2 /\
  leftmost_with_none_before Nat.ltb (store_of [1; 2; 3]) 0 3 3 0.
Proof.
  split; [exact ltb_strict_weak_ordering|].
  split.
  { unfold sorted_range, sorted.
    cbv [ustl.range store_of map seq nth Nat.sub]. repeat constructor. }
  split; [reflexivity|]. split.
  - intros (_ & Hnone & _). specialize (Hnone 0).
    assert (H : 0 <= 0 < 2) by lia. apply Hnone in H.
    vm_compute in H. discriminate.
  - split; [lia|]. split; intros; lia.
Qed.

(** C5 -- on a range sorted under a strict weak ordering, [upper_bound]
    returns the first position whose element is ordered after [value], and
    [last] when there is none; it is the rightmost position at which
    [value] can be inserted with the range staying sorted. *)
Theorem upper_bound_last_insertion_point (T : Type) (fuel : nat)
    (m : ustl.mem T) (first last : ustl.cursor) (value : T)
    (comp : T -> T -> bool) :
  StrictWeakOrdering comp ->
  sorted_range comp m first last ->
  first <= last ->
  ustl.distance first last <= fuel ->
  exists p,
    ustl.upper_bound fuel m first last value comp = Some p /\
    first <= p <= last /\
    (forall j, first <= j < p -> comp value (m j) = false) /\
    (p < last -> comp value (m p) = true) /\
    ((forall j, first <= j < last -> comp value (m j) = false) -> p = last) /\
    insertion_point comp m first last value p /\
    (forall q, insertion_point comp m first last value q -> q <= p).
Proof.
  intros Hswo Hsorted Hle Hfuel.
  destruct (upper_bound_splits value Hle Hfuel Hswo Hsorted)
    as (p & Hrun & Hp & Hlo & Hhi).
  exists p. repeat (split; [assumption || lia|]).
  split; [|split; [|split]].
  - intros Hlt. apply Hhi. lia.
  - intros Hnone. destruct (Nat.eq_dec p last) as [|Hne]; [assumption|].
    exfalso. specialize (Hnone p). rewrite Hhi in Hnone by lia.
    assert (true = false) by (apply Hnone; lia). discriminate.
  - apply (insertion_point_cells Hsorted). split; [assumption|].
    split; [assumption|].
    intros j Hj. apply (swo_asymmetric Hswo). apply Hhi. assumption.
  - intros q Hq. apply (insertion_point_cells Hsorted) in Hq.
    destruct Hq as (Hq & Hbefore & _).
    destruct (le_lt_dec q p) as [|Hlt]; [assumption|]. exfalso.
    specialize (Hbefore p). rewrite Hhi in Hbefore by lia.
    assert (true = false) by (apply Hbefore; lia). discriminate.
Qed.

Lemma upper_bound_last_insertion_point_witness :
  StrictWeakOrdering Nat.ltb /\
  sorted_range Nat.ltb scenario 0 6 /\
  0 <= 6 /\
  ustl.distance 0 6 <= 6 /\
  exists p,
    ustl.upper_bound 6 scenario 0 6 3 Nat.ltb = Some p /\
    0 <= p <= 6 /\
    (forall j, 0 <= j < p -> Nat.ltb 3 (scenario j) = false) /\
    (p < 6 -> Nat.ltb 3 (scenario p) = true) /\
    ((forall j, 0 <= j < 6 -> Nat.ltb 3 (scenario j) = false) -> p = 6) /\
    insertion_point Nat.ltb scenario 0 6 3 p /\
    (forall q, insertion_point Nat.ltb scenario 0 6 3 q -> q <= p).
Proof.
  split; [exact ltb_strict_weak_ordering|].
  split; [exact scenario_sorted|].
  split; [lia|]. split; [vm_compute; lia|].
  apply (@upper_bound_last_insertion_point nat 6 scenario 0 6 3 Nat.ltb).
  - exact ltb_strict_weak_ordering.
  - exact scenario_sorted.
  - lia.
  - vm_compute. lia.
Defined.

(** C6 -- on a range sorted under a strict weak ordering, [equal_range]
    returns the pair of what [lower_bound] and [upper_bound] return, and
    every element between the two cursors is equivalent to [value]. *)
Theorem equal_range_is_lower_and_upper_bound (T : Type) (fuel : nat)
    (m : ustl.mem T) (first last : ustl.cursor) (value : T)
    (comp : T -> T -> bool) :
  StrictWeakOrdering comp ->
  sorted_range comp m first last ->
  first <= last ->
  ustl.distance first last <= fuel ->
  exists lb ub,
    ustl.lower_bound fuel m first last value comp = Some lb /\
    ustl.upper_bound fuel m first last value comp = Some ub /\
    ustl.equal_range fuel m first last value comp = Some (lb, ub) /\
    first <= lb /\ lb <= ub /\ ub <= last /\
    (forall j, lb <= j < ub -> equivalent comp (m j) value).
Proof.
  intros Hswo Hsorted Hle Hfuel.
  destruct (equal_range_scan value Hle Hfuel Hswo Hsorted)
    as (lb & ub & Hlb & Hub & Hrun & H1 & H2 & H3 & Hnot_before & Hnot_after).
  exists lb, ub. repeat (split; [assumption|]).
  intros j Hj. split; [apply Hnot_before | apply Hnot_after]; lia.
Qed.

Lemma equal_range_is_lower_and_upper_bound_witness :
  StrictWeakOrdering Nat.ltb /\
  sorted_range Nat.ltb scenario 0 6 /\
  0 <= 6 /\
  ustl.distance 0 6 <= 6 /\
  exists lb ub,
    ustl.lower_bound 6 scenario 0 6 3 Nat.ltb = Some lb /\
    ustl.upper_bound 6 scenario 0 6 3 Nat.ltb = Some ub /\
    ustl.equal_range 6 scenario 0 6 3 Nat.ltb = Some (lb, ub) /\
    0 <= lb /\ lb <= ub /\ ub <= 6 /\
    (forall j, lb <= j < ub -> equivalent Nat.ltb (scenario j) 3).
Proof.
  split; [exact ltb_strict_weak_ordering|].
  split; [exact scenario_sorted|].
  split; [lia|]. split; [vm_compute; lia|].
  apply (@equal_range_is_lower_and_upper_bound nat 6 scenario 0 6 3 Nat.ltb).
  - exact ltb_strict_weak_ordering.
  - exact scenario_sorted.
  - lia.
  - vm_compute. lia.
Defined.

(** The scenarios of the specification on 1, 3, 3, 3, 5, 7. *)
Example scenario_value_3 :
  ustl.lower_bound 6 scenario 0 6 3 Nat.ltb = Some 1 /\
  ustl.upper_bound 6 scenario 0 6 3 Nat.ltb = Some 4 /\
  ustl.equal_range 6 scenario 0 6 3 Nat.ltb = Some (1, 4) /\
  ustl.binary_search 6 scenario 0 6 3 Nat.ltb = Some 1.
Proof. repeat split; reflexivity. Qed.

Example scenario_value_4 :
  ustl.lower_bound 6 scenario 0 6 4 Nat.ltb = Some 4 /\
  ustl.upper_bound 6 scenario 0 6 4 Nat.ltb = Some 4 /\
  ustl.equal_range 6 scenario 0 6 4 Nat.ltb = Some (4, 4) /\
  ustl.binary_search 6 scenario 0 6 4 Nat.ltb = Some 6.
Proof. repeat split; reflexivity. Qed.

(** C7 -- on a range sorted under a strict weak ordering, [binary_search]
    returns a cursor: the position [lower_bound] found when that position
    is not [last] and its element is not ordered after [value], and [last]
    otherwise.  The cursor differs from [last] exactly when [value] occurs
    in the range, and then points at an element equivalent to [value]; on
    an empty range it is [last]. *)
Theorem binary_search_returns_cursor (T : Type) (fuel : nat)
    (m : ustl.mem T) (first last : ustl.cursor) (value : T)
    (comp : T -> T -> bool) :
  StrictWeakOrdering comp ->
  sorted_range comp m first last ->
  first <= last ->
  ustl.distance first last <= fuel ->
  exists found r,
    ustl.lower_bound fuel m first last value comp = Some found /\
    ustl.binary_search fuel m first last value comp = Some r /\
    (r <> last <-> occurs comp m first last value) /\
    (r <> last <-> found <> last /\ comp value (m found) = false) /\
    (r <> last ->
     r = found /\ first <= r < last /\ equivalent comp (m r) value) /\
    (first = last -> r = last).
Proof.
  intros Hswo Hsorted Hle Hfuel.
  destruct (lower_bound_splits value Hle Hfuel Hswo Hsorted)
    as (p & Hrun & Hp & Hlo & Hhi).
  exists p. unfold ustl.binary_search. rewrite Hrun. simpl ustl.bind.
  eexists. split; [reflexivity|]. split; [reflexivity|].
  destruct (Nat.eq_dec p last) as [Heq|Hne].
  - (* nothing from [p] on: [last] *)
    subst p. rewrite Nat.eqb_refl. simpl.
    repeat split; try tauto.
    intros (j & Hj & Hjv & _). rewrite Hlo in Hjv by lia. discriminate.
  - rewrite (proj2 (Nat.eqb_neq p last) Hne). simpl.
    destruct (comp value (m p)) eqn:Hcmp.
    + (* the element at [p] is ordered after [value]: [last] *)
      repeat split; try tauto; try (intros [_ H]; discriminate).
      intros (j & Hj & Hjv & Hvj) _.
      destruct (le_lt_dec p j) as [Hpj|Hjp].
      * rewrite (after_value_suffix Hswo Hsorted value (i := p) (j := j))
          in Hvj by (assumption || lia).
        discriminate.
      * rewrite Hlo in Hjv by lia. discriminate.
    + (* the element at [p] is equivalent to [value]: [p] *)
      assert (Hequiv : equivalent comp (m p) value).
      { split; [apply Hhi; lia | assumption]. }
      repeat split; try tauto; try lia; try (apply Hhi; lia).
      intros _. exists p. split; [lia | assumption].
Qed.

Lemma binary_search_returns_cursor_witness :
  StrictWeakOrdering Nat.ltb /\
  sorted_range Nat.ltb scenario 0 6 /\
  0 <= 6 /\
  ustl.distance 0 6 <= 6 /\
  exists found r,
    ustl.lower_bound 6 scenario 0 6 3 Nat.ltb = Some found /\
    ustl.binary_search 6 scenario 0 6 3 Nat.ltb = Some r /\
    (r <> 6 <-> occurs Nat.ltb scenario 0 6 3) /\
    (r <> 6 <-> found <> 6 /\ Nat.ltb 3 (scenario found) = false) /\
    (r <> 6 ->
     r = found /\ 0 <= r < 6 /\ equivalent Nat.ltb (scenario r) 3) /\
    (0 = 6 -> r = 6).
Proof.
  split; [exact ltb_strict_weak_ordering|].
  split; [exact scenario_sorted|].
  split; [lia|]. split; [vm_compute; lia|].
  apply (@binary_search_returns_cursor nat 6 scenario 0 6 3 Nat.ltb).
  - exact ltb_strict_weak_ordering.
  - exact scenario_sorted.
  - lia.
  - vm_compute. lia.
Defined.

(** C7, as it is worded -- in a store whose first cell holds 3,
    [binary_search] for 3 returns cursor 0 on the one-element range
    [[0, 1)], where 3 occurs, and returns cursor 0 again on the empty range
    [[0, 0)], where nothing occurs: no reading of the returned cursor as
    true or false answers membership on both. *)
Lemma binary_search_is_no_truth_value :
  ustl.binary_search 1 (store_of [3]) 0 1 3 Nat.ltb = Some 0 /\
  ustl.binary_search 1 (store_of [3]) 0 0 3 Nat.ltb = Some 0 /\
  ~ exists truth : ustl.cursor -> bool,
      answers_membership Nat.ltb truth 1 (store_of [3]) 0 1 3 /\
      answers_membership Nat.ltb truth 1 (store_of [3]) 0 0 3.
Proof.
  split; [reflexivity|]. split; [reflexivity|].
  intros (truth & (r1 & Hr1 & Hyes) & (r2 & Hr2 & Hno)).
  vm_compute in Hr1, Hr2.
  injection Hr1 as <-. injection Hr2 as <-.
  assert (Hocc : occurs Nat.ltb (store_of [3]) 0 1 3).
  { exists 0. split; [lia|]. split; reflexivity. }
  apply Hyes in Hocc. apply Hno in Hocc.
  destruct Hocc as (j & Hj & _). lia.
Qed.

(** C8 -- on a valid range, whatever the value and the comparator: an
    iteration of either bisection loop on a non-empty interval leaves an
    interval inside it that is strictly shorter; both loops stop within
    [distance (first, last)] iterations; a range of one element takes
    exactly one iteration, hence one comparison, and an empty range takes
    none. *)
Theorem bisection_terminates (T : Type) (m : ustl.mem T)
    (first last : ustl.cursor) (value : T) (comp : T -> T -> bool) :
  first <= last ->
  (first <> last ->
   (first <= fst (ustl.lower_bound_body m value comp (first, last)) /\
    fst (ustl.lower_bound_body m value comp (first, last))
      <= snd (ustl.lower_bound_body m value comp (first, last)) /\
    snd (ustl.lower_bound_body m value comp (first, last)) <= last /\
    ustl.distance (fst (ustl.lower_bound_body m value comp (first, last)))
                  (snd (ustl.lower_bound_body m value comp (first, last)))
      < ustl.distance first last) /\
   (first <= fst (ustl.upper_bound_body m value comp (first, last)) /\
    fst (ustl.upper_bound_body m value comp (first, last))
      <= snd (ustl.upper_bound_body m value comp (first, last)) /\
    snd (ustl.upper_bound_body m value comp (first, last)) <= last /\
    ustl.distance (fst (ustl.upper_bound_body m value comp (first, last)))
                  (snd (ustl.upper_bound_body m value comp (first, last)))
      < ustl.distance first last)) /\
  (forall fuel, ustl.distance first last <= fuel ->
     (exists p, ustl.lower_bound fuel m first last value comp = Some p /\
                first <= p <= last) /\
     (exists p, ustl.upper_bound fuel m first last value comp = Some p /\
                first <= p <= last)) /\
  (ustl.distance first last = 1 ->
     ustl.lower_bound 0 m first last value comp = None /\
     (exists p, ustl.lower_bound 1 m first last value comp = Some p) /\
     ustl.upper_bound 0 m first last value comp = None /\
     (exists p, ustl.upper_bound 1 m first last value comp = Some p)) /\
  (first = last ->
     ustl.lower_bound 0 m first last value comp = Some first /\
     ustl.upper_bound 0 m first last value comp = Some last).
Proof.
  intros Hle. split; [|split; [|split]].
  - intros Hne. assert (Hlt : first < last) by lia. split.
    + apply lower_bound_body_shrinks. assumption.
    + apply upper_bound_body_shrinks. assumption.
  - intros fuel Hfuel. split.
    + apply lower_bound_returns; assumption.
    + apply upper_bound_returns; assumption.
  - intros Hone.
    assert (Hne : (first =? last) = false).
    { apply Nat.eqb_neq. unfold ustl.distance in Hone. lia. }
    assert (Hfuel : ustl.distance first last <= 1) by lia.
    destruct (lower_bound_returns comp m value Hle Hfuel) as (p & Hp & _).
    destruct (upper_bound_returns comp m value Hle Hfuel) as (q & Hq & _).
    repeat split.
    + unfold ustl.lower_bound. simpl. rewrite Hne. reflexivity.
    + exists p. exact Hp.
    + unfold ustl.upper_bound. simpl. rewrite Hne. reflexivity.
    + exists q. exact Hq.
  - intros <-. unfold ustl.lower_bound, ustl.upper_bound. simpl.
    rewrite Nat.eqb_refl. split; reflexivity.
Qed.

Lemma bisection_terminates_witness :
  0 <= 6 /\
  (0 <> 6 ->
   (0 <= fst (ustl.lower_bound_body scenario 3 Nat.ltb (0, 6)) /\
    fst (ustl.lower_bound_body scenario 3 Nat.ltb (0, 6))
      <= snd (ustl.lower_bound_body scenario 3 Nat.ltb (0, 6)) /\
    snd (ustl.lower_bound_body scenario 3 Nat.ltb (0, 6)) <= 6 /\
    ustl.distance (fst (ustl.lower_bound_body scenario 3 Nat.ltb (0, 6)))
                  (snd (ustl.lower_bound_body scenario 3 Nat.ltb (0, 6)))
      < ustl.distance 0 6) /\
   (0 <= fst (ustl.upper_bound_body scenario 3 Nat.ltb (0, 6)) /\
    fst (ustl.upper_bound_body scenario 3 Nat.ltb (0, 6))
      <= snd (ustl.upper_bound_body scenario 3 Nat.ltb (0, 6)) /\
    snd (ustl.upper_bound_body scenario 3 Nat.ltb (0, 6)) <= 6 /\
    ustl.distance (fst (ustl.upper_bound_body scenario 3 Nat.ltb (0, 6)))
                  (snd (ustl.upper_bound_body scenario 3 Nat.ltb (0, 6)))
      < ustl.distance 0 6)) /\
  (forall fuel, ustl.distance 0 6 <= fuel ->
     (exists p, ustl.lower_bound fuel scenario 0 6 3 Nat.ltb = Some p /\
                0 <= p <= 6) /\
     (exists p, ustl.upper_bound fuel scenario 0 6 3 Nat.ltb = Some p /\
                0 <= p <= 6)) /\
  (ustl.distance 0 6 = 1 ->
     ustl.lower_bound 0 scenario 0 6 3 Nat.ltb = None /\
     (exists p, ustl.lower_bound 1 scenario 0 6 3 Nat.ltb = Some p) /\
     ustl.upper_bound 0 scenario 0 6 3 Nat.ltb = None /\
     (exists p, ustl.upper_bound 1 scenario 0 6 3 Nat.ltb = Some p)) /\
  (0 = 6 ->
     ustl.lower_bound 0 scenario 0 6 3 Nat.ltb = Some 0 /\
     ustl.upper_bound 0 scenario 0 6 3 Nat.ltb = Some 6).
Proof.
  split; [lia|].
  apply (@bisection_terminates nat scenario 0 6 3 Nat.ltb). lia.
Defined.

(** Ranges of one element and of none, run: one iteration is needed and
    suffices for the first, none for the second. *)
Example bisection_on_short_ranges :
  ustl.lower_bound 0 scenario 2 3 3 Nat.ltb = None /\
  ustl.lower_bound 1 scenario 2 3 3 Nat.ltb = Some 2 /\
  ustl.upper_bound 0 scenario 2 3 3 Nat.ltb = None /\
  ustl.upper_bound 1 scenario 2 3 3 Nat.ltb = Some 3 /\
  ustl.lower_bound 0 scenario 2 2 3 Nat.ltb = Some 2 /\
  ustl.upper_bound 0 scenario 2 2 3 Nat.ltb = Some 2 /\
  ustl.binary_search 0 scenario 2 2 3 Nat.ltb = Some 2.
Proof. repeat split; reflexivity. Qed.

(** * Searching scans *)

Lemma filter_none (T : Type) (pred : T -> bool) (l : list T) :
  length (filter pred l) = 0 <-> forall x, In x l -> pred x = false.
Proof.
  induction l as [|a l IH]; simpl.
  - split; [intros _ x []|reflexivity].
  - destruct (pred a) eqn:E; simpl.
    + split; [discriminate|]. intros H.
      rewrite (H a (or_introl eq_refl)) in E. discriminate.
    + rewrite IH. split.
      * intros H x [<-|Hx]; auto.
      * intros H x Hx. apply H. right. assumption.
Qed.

Section Searches.
Variable T : Type.
Variable m : ustl.mem T.
Variables first last : ustl.cursor.
Hypothesis valid_range : first <= last.
Variable fuel : nat.
Hypothesis enough_fuel : ustl.distance first last <= fuel.

Lemma find_if_scan (pred : T -> bool) :
  exists r,
    ustl.find_if fuel m first last pred = Some r /\
    first <= r <= last /\
    (forall j, first <= j < r -> pred (m j) = false) /\
    (r = last \/ pred (m r) = true).
Proof.
  unfold ustl.find_if.
  run_loop
    (fun s : ustl.cursor =>
       first <= s <= last /\ forall j, first <= j < s -> pred (m j) = false)
    (fun s : ustl.cursor => last - s).
  - intros s [Hs Hnone] Hc. apply andb_true_iff in Hc.
    destruct Hc as [Hne Hp]. apply neq_cursor in Hne.
    apply negb_true_iff in Hp.
    split; [|lia]. split; [lia|].
    intros j Hj. destruct (Nat.eq_dec j s) as [->|]; [assumption|].
    apply Hnone. lia.
  - split; [lia|]. intros j Hj. lia.
  - exact enough_fuel.
  - destruct Hinv as [Hs Hnone]. exists sfin.
    split; [reflexivity|]. split; [assumption|]. split; [assumption|].
    apply andb_false_iff in Hstop. destruct Hstop as [H|H].
    + left. apply eq_cursor in H. assumption.
    + right. apply negb_false_iff in H. assumption.
Qed.

Lemma adjacent_find_scan (p : T -> T -> bool) :
  exists r,
    ustl.adjacent_find fuel m first last p = Some r /\
    (forall i, first <= i < r -> i + 1 < last -> p (m i) (m (i + 1)) = false) /\
    (r = last \/
     first <= r /\ r + 1 < last /\ p (m r) (m (r + 1)) = true).
Proof.
  unfold ustl.adjacent_find.
  destruct (Nat.eq_dec first last) as [Heq|Hne].
  { rewrite (proj2 (eq_cursor first last) Heq). exists last.
    split; [reflexivity|]. split; [|left; reflexivity].
    intros i Hi Hi'. lia. }
  rewrite (proj2 (neq_cursor first last) Hne).
  run_loop
    (fun s : ustl.cursor * ustl.cursor * option ustl.cursor =>
       let '(prev, f, returned) := s in
       first <= prev /\
       (forall i, first <= i < prev -> p (m i) (m (i + 1)) = false) /\
       match returned with
       | None => f = prev + 1 /\ f <= last
       | Some r => r = prev /\ prev + 1 < last /\
                   p (m prev) (m (prev + 1)) = true
       end)
    (fun s : ustl.cursor * ustl.cursor * option ustl.cursor =>
       match snd s with
       | None => S (last - snd (fst s))
       | Some _ => 0
       end).
  - intros [[prev f] [r|]] (Hprev & Hnone & Hret) Hc; [discriminate|].
    apply neq_cursor in Hc. destruct Hret as [-> Hf].
    destruct (p (m prev) (m (prev + 1))) eqn:Hp; cbn [fst snd].
    + split; [|lia]. split; [assumption|]. split; [assumption|].
      split; [reflexivity|]. split; [lia|assumption].
    + split; [|lia]. split; [lia|]. split; [|lia].
      intros i Hi. destruct (Nat.eq_dec i prev) as [->|]; [assumption|].
      apply Hnone. lia.
  - split; [lia|]. split; [intros i Hi; lia|]. lia.
  - cbn [fst snd]. unfold ustl.distance in enough_fuel. lia.
  - destruct sfin as [[prev f] [r|]]; destruct Hinv as (Hprev & Hnone & Hret).
    + destruct Hret as (-> & Hlt & Hp). exists prev.
      split; [reflexivity|]. split; [|right; auto].
      intros i Hi _. apply Hnone. assumption.
    + destruct Hret as [-> Hf]. apply eq_cursor in Hstop.
      exists last. split; [reflexivity|]. split; [|left; reflexivity].
      intros i Hi Hi'. apply Hnone. lia.
Qed.

(** What [equal] answers. *)
Lemma equal_all_pairs (first2 : ustl.cursor) (comp : T -> T -> bool) :
  exists b,
    ustl.equal fuel m first last first2 comp = Some b /\
    (b = true <->
     forall i, i < ustl.distance first last ->
               comp (m (first + i)) (m (first2 + i)) = true).
Proof.
  destruct (mismatch_cursors m valid_range enough_fuel first2 comp)
    as (k & Hrun & Hk & Hall & Hend).
  unfold ustl.equal. rewrite Hrun. simpl ustl.bind.
  eexists. split; [reflexivity|]. unfold ustl.distance.
  rewrite Nat.eqb_eq. split.
  - intros Heq i Hi. apply Hall. lia.
  - intros Hpairs. destruct Hend as [|Hend]; [assumption|].
    destruct (Nat.eq_dec (first + k) last) as [|Hne]; [assumption|].
    rewrite Hpairs in Hend by lia. discriminate.
Qed.
End Searches.

(** X1 -- [find_if] returns the first position of the range whose element
    satisfies [pred]: no element before it does, and the element there
    does unless the cursor is [last]; it returns [last] exactly when no
    element of the range satisfies [pred]. *)
Theorem find_if_first_match (T : Type) (fuel : nat) (m : ustl.mem T)
    (first last : ustl.cursor) (pred : T -> bool) :
  first <= last ->
  ustl.distance first last <= fuel ->
  exists r,
    ustl.find_if fuel m first last pred = Some r /\
    first <= r <= last /\
    (forall j, first <= j < r -> pred (m j) = false) /\
    (r < last -> pred (m r) = true) /\
    (r = last <-> forall j, first <= j < last -> pred (m j) = false).
Proof.
  intros Hle Hfuel.
  destruct (find_if_scan m Hle Hfuel pred) as (r & Hrun & Hr & Hnone & Hat).
  exists r. repeat (split; [assumption|]). split; [|split].
  - intros Hlt. destruct Hat as [|]; [lia|assumption].
  - intros ->. assumption.
  - intros Hall. destruct Hat as [|Hp]; [assumption|].
    destruct (Nat.eq_dec r last) as [|Hne]; [assumption|].
    rewrite Hall in Hp by lia. discriminate.
Qed.

Lemma find_if_first_match_witness :
  1 <= 5 /\
  ustl.distance 1 5 <= 4 /\
  exists r,
    ustl.find_if 4 (store_of [2; 1; 3; 4; 6; 8]) 1 5 is_even = Some r /\
    1 <= r <= 5 /\
    (forall j, 1 <= j < r -> is_even (store_of [2; 1; 3; 4; 6; 8] j) = false) /\
    (r < 5 -> is_even (store_of [2; 1; 3; 4; 6; 8] r) = true) /\
    (r = 5 <->
     forall j, 1 <= j < 5 -> is_even (store_of [2; 1; 3; 4; 6; 8] j) = false).
Proof.
  split; [lia|]. split; [vm_compute; lia|].
  apply (@find_if_first_match nat 4 (store_of [2; 1; 3; 4; 6; 8]) 1 5 is_even).
  - lia.
  - vm_compute. lia.
Defined.

(** X2 -- [find_if] and [count_if] agree: [find_if] returns [last] exactly
    when [count_if] returns 0 for the same range and predicate. *)
Theorem find_if_last_iff_count_if_zero (T : Type) (fuel : nat)
    (m : ustl.mem T) (first last : ustl.cursor) (pred : T -> bool) :
  first <= last ->
  ustl.distance first last <= fuel ->
  exists r n,
    ustl.find_if fuel m first last pred = Some r /\
    ustl.count_if fuel m first last pred = Some n /\
    (r = last <-> n = 0).
Proof.
  intros Hle Hfuel.
  destruct (find_if_scan m Hle Hfuel pred) as (r & Hrun & Hr & Hnone & Hat).
  exists r, (length (filter pred (ustl.range m first last))).
  split; [assumption|]. split; [apply count_if_counts; assumption|].
  rewrite filter_none. split.
  - intros -> x Hx. apply in_range in Hx. destruct Hx as (j & Hj & <-).
    apply Hnone. assumption.
  - intros Hall. destruct Hat as [|Hp]; [assumption|].
    destruct (Nat.eq_dec r last) as [|Hne]; [assumption|].
    rewrite Hall in Hp; [discriminate|].
    apply in_range. exists r. split; [lia|reflexivity].
Qed.

Lemma find_if_last_iff_count_if_zero_witness :
  0 <= 3 /\
  ustl.distance 0 3 <= 3 /\
  exists r n,
    ustl.find_if 3 (store_of [1; 3; 5]) 0 3 is_even = Some r /\
    ustl.count_if 3 (store_of [1; 3; 5]) 0 3 is_even = Some n /\
    (r = 3 <-> n = 0).
Proof.
  split; [lia|]. split; [vm_compute; lia|].
  apply (@find_if_last_iff_count_if_zero nat 3 (store_of [1; 3; 5]) 0 3
           is_even).
  - lia.
  - vm_compute. lia.
Defined.

(** X3 -- [adjacent_find] returns the first position whose element and the
    next one satisfy [p], both inside the range, and [last] when no two
    neighbours of the range do, which covers the ranges of no element and
    of one. *)
Theorem adjacent_find_first_pair (T : Type) (fuel : nat) (m : ustl.mem T)
    (first last : ustl.cursor) (p : T -> T -> bool) :
  first <= last ->
  ustl.distance first last <= fuel ->
  exists r,
    ustl.adjacent_find fuel m first last p = Some r /\
    first <= r <= last /\
    (forall i, first <= i < r -> i + 1 < last -> p (m i) (m (i + 1)) = false) /\
    (r <> last -> r + 1 < last /\ p (m r) (m (r + 1)) = true) /\
    (r = last <->
     forall i, first <= i -> i + 1 < last -> p (m i) (m (i + 1)) = false) /\
    (ustl.distance first last <= 1 -> r = last).
Proof.
  intros Hle Hfuel.
  destruct (adjacent_find_scan m Hle Hfuel p) as (r & Hrun & Hnone & Hat).
  exists r. split; [assumption|].
  split; [destruct Hat as [->|]; lia|].
  split; [assumption|]. split; [|split].
  - intros Hne. destruct Hat as [|(_ & H1 & H2)]; [contradiction|auto].
  - split.
    + intros -> i Hi Hi'. apply Hnone; lia.
    + intros Hall. destruct Hat as [|(H0 & H1 & H2)]; [assumption|].
      rewrite Hall in H2 by lia. discriminate.
  - unfold ustl.distance. intros Hshort.
    destruct Hat as [|(H0 & H1 & H2)]; [assumption|lia].
Qed.

Lemma adjacent_find_first_pair_witness :
  0 <= 5 /\
  ustl.distance 0 5 <= 5 /\
  exists r,
    ustl.adjacent_find 5 (store_of [1; 2; 2; 3; 3]) 0 5 Nat.eqb = Some r /\
    0 <= r <= 5 /\
    (forall i, 0 <= i < r -> i + 1 < 5 ->
       Nat.eqb (store_of [1; 2; 2; 3; 3] i)
               (store_of [1; 2; 2; 3; 3] (i + 1)) = false) /\
    (r <> 5 ->
     r + 1 < 5 /\
     Nat.eqb (store_of [1; 2; 2; 3; 3] r)
             (store_of [1; 2; 2; 3; 3] (r + 1)) = true) /\
    (r = 5 <->
     forall i, 0 <= i -> i + 1 < 5 ->
       Nat.eqb (store_of [1; 2; 2; 3; 3] i)
               (store_of [1; 2; 2; 3; 3] (i + 1)) = false) /\
    (ustl.distance 0 5 <= 1 -> r = 5).
Proof.
  split; [lia|]. split; [vm_compute; lia|].
  apply (@adjacent_find_first_pair nat 5 (store_of [1; 2; 2; 3; 3]) 0 5
           Nat.eqb).
  - lia.
  - vm_compute. lia.
Defined.

Example adjacent_find_runs :
  ustl.adjacent_find 5 (store_of [1; 2; 2; 3; 3]) 0 5 Nat.eqb = Some 1 /\
  ustl.adjacent_find 5 (store_of [1; 2; 2; 3; 3]) 2 5 Nat.eqb = Some 3 /\
  ustl.adjacent_find 5 (store_of [1; 2; 2; 3; 3]) 0 2 Nat.eqb = Some 2 /\
  ustl.adjacent_find 0 (store_of [1; 2; 2; 3; 3]) 1 2 Nat.eqb = Some 2 /\
  ustl.adjacent_find 0 (store_of [1; 2; 2; 3; 3]) 1 1 Nat.eqb = Some 1 /\
  ustl.find_if 5 (store_of [1; 2; 2; 3; 3]) 0 5 is_even = Some 1.
Proof. repeat split; reflexivity. Qed.

(** X4 -- [count_if] returns the number of elements of the range that
    satisfy [pred]; it is at most the length of the range, and the counts
    for a predicate and for its negation add up to that length. *)
Theorem count_if_partition (T : Type) (fuel : nat) (m : ustl.mem T)
    (first last : ustl.cursor) (pred : T -> bool) :
  first <= last ->
  ustl.distance first last <= fuel ->
  exists n k,
    ustl.count_if fuel m first last pred = Some n /\
    ustl.count_if fuel m first last (fun x => negb (pred x)) = Some k /\
    n = length (filter pred (ustl.range m first last)) /\
    n <= ustl.distance first last /\
    n + k = ustl.distance first last.
Proof.
  intros Hle Hfuel.
  exists (length (filter pred (ustl.range m first last))),
         (length (filter (fun x => negb (pred x)) (ustl.range m first last))).
  split; [apply count_if_counts; assumption|].
  split; [apply count_if_counts; assumption|].
  split; [reflexivity|].
  pose proof (filter_length pred (ustl.range m first last)) as Hsum.
  rewrite range_length in Hsum. unfold ustl.distance. lia.
Qed.

Lemma count_if_partition_witness :
  0 <= 5 /\
  ustl.distance 0 5 <= 5 /\
  exists n k,
    ustl.count_if 5 (store_of [1; 2; 3; 4; 5]) 0 5 is_even = Some n /\
    ustl.count_if 5 (store_of [1; 2; 3; 4; 5]) 0 5
      (fun x => negb (is_even x)) = Some k /\
    n = length (filter is_even (ustl.range (store_of [1; 2; 3; 4; 5]) 0 5)) /\
    n <= ustl.distance 0 5 /\
    n + k = ustl.distance 0 5.
Proof.
  split; [lia|]. split; [vm_compute; lia|].
  apply (@count_if_partition nat 5 (store_of [1; 2; 3; 4; 5]) 0 5 is_even).
  - lia.
  - vm_compute. lia.
Defined.

(** X5 -- with the output at or before the input, or past its end,
    [copy_if] writes the elements that satisfy [pred], in their order, from
    [result] on, returns the cursor past them, which is [result] advanced
    by [count_if], and writes nowhere else. *)
Theorem copy_if_copies_matching (T : Type) (fuel : nat) (m : ustl.mem T)
    (first last result : ustl.cursor) (pred : T -> bool) :
  first <= last ->
  ustl.distance first last <= fuel ->
  result <= first \/ last <= result ->
  exists m' n,
    ustl.count_if fuel m first last pred = Some n /\
    ustl.copy_if fuel m first last result pred = Some (m', result + n) /\
    ustl.range m' result (result + n) = filter pred (ustl.range m first last) /\
    (forall p, p < result \/ result + n <= p -> m' p = m p).
Proof.
  intros Hle Hfuel Hout.
  destruct (@remove_copy_if_keeps_where_pred_holds T m first last result Hle
              fuel Hfuel Hout pred) as (m' & Hrun & Hrange & Hframe).
  exists m', (length (filter pred (ustl.range m first last))).
  split; [apply count_if_counts; assumption|].
  rewrite <- remove_copy_if_is_copy_if. auto.
Qed.

Lemma copy_if_copies_matching_witness :
  0 <= 5 /\
  ustl.distance 0 5 <= 5 /\
  (10 <= 0 \/ 5 <= 10) /\
  exists m' n,
    ustl.count_if 5 (store_of [1; 2; 3; 4; 5]) 0 5 is_even = Some n /\
    ustl.copy_if 5 (store_of [1; 2; 3; 4; 5]) 0 5 10 is_even
      = Some (m', 10 + n) /\
    ustl.range m' 10 (10 + n)
      = filter is_even (ustl.range (store_of [1; 2; 3; 4; 5]) 0 5) /\
    (forall p, p < 10 \/ 10 + n <= p -> m' p = store_of [1; 2; 3; 4; 5] p).
Proof.
  split; [lia|]. split; [vm_compute; lia|]. split; [right; lia|].
  apply (@copy_if_copies_matching nat 5 (store_of [1; 2; 3; 4; 5]) 0 5 10
           is_even).
  - lia.
  - vm_compute. lia.
  - right. lia.
Defined.

(** X6 -- [equal] returns true exactly when [comp] holds of every pair of
    corresponding elements of the two ranges; on an empty first range it
    returns true. *)
Theorem equal_iff_all_pairs (T : Type) (fuel : nat) (m : ustl.mem T)
    (first1 last1 first2 : ustl.cursor) (comp : T -> T -> bool) :
  first1 <= last1 ->
  ustl.distance first1 last1 <= fuel ->
  exists b,
    ustl.equal fuel m first1 last1 first2 comp = Some b /\
    (b = true <->
     forall i, i < ustl.distance first1 last1 ->
               comp (m (first1 + i)) (m (first2 + i)) = true) /\
    (first1 = last1 -> b = true).
Proof.
  intros Hle Hfuel.
  destruct (equal_all_pairs m Hle Hfuel first2 comp) as (b & Hrun & Hb).
  exists b. split; [assumption|]. split; [assumption|].
  intros ->. apply Hb. unfold ustl.distance. intros i Hi. lia.
Qed.

Lemma equal_iff_all_pairs_witness :
  0 <= 3 /\
  ustl.distance 0 3 <= 3 /\
  exists b,
    ustl.equal 3 (store_of [1; 2; 3; 9; 1; 2; 4]) 0 3 4 Nat.eqb = Some b /\
    (b = true <->
     forall i, i < ustl.distance 0 3 ->
               Nat.eqb (store_of [1; 2; 3; 9; 1; 2; 4] (0 + i))
                       (store_of [1; 2; 3; 9; 1; 2; 4] (4 + i)) = true) /\
    (0 = 3 -> b = true).
Proof.
  split; [lia|]. split; [vm_compute; lia|].
  apply (@equal_iff_all_pairs nat 3 (store_of [1; 2; 3; 9; 1; 2; 4]) 0 3 4
           Nat.eqb).
  - lia.
  - vm_compute. lia.
Defined.

(** * Replacing and removing, in place *)

Section Cells.
Variable T : Type.
Implicit Types (m : ustl.mem T) (f p l : ustl.cursor).



Lemma cells_map_range m m' f l (g : T -> T) :
  (forall p, f <= p < l -> m' p = g (m p)) ->
  ustl.range m' f l = map g (ustl.range m f l).
Proof.
  intros Hcells. unfold ustl.range. rewrite map_map.
  apply map_ext_in. intros p Hp. apply in_seq in Hp. apply Hcells. lia.
Qed.

Lemma filter_after_replace (pred : T -> bool) (new_value : T) (l : list T) :
  pred new_value = true ->
  length (filter pred (map (fun x => if pred x then new_value else x) l))
  = length (filter pred l).
Proof.
  intros Hnv. induction l as [|x l IH]; [reflexivity|].
  simpl. destruct (pred x) eqn:Hx.
  - rewrite Hnv. simpl. rewrite IH. reflexivity.
  - rewrite Hx. assumption.
Qed.

Lemma in_range_test (first last p : nat) :
  (first <=? p) && (p <? last) = true <-> first <= p < last.
Proof.
  rewrite andb_true_iff, Nat.leb_le, Nat.ltb_lt. tauto.
Qed.
End Cells.

(** X7 -- [replace_if] is idempotent: a second call with the same range,
    predicate and value leaves every cell as the first call left it. *)
Theorem replace_if_idempotent (T : Type) (fuel : nat) (m : ustl.mem T)
    (first last : ustl.cursor) (pred : T -> bool) (new_value : T) :
  first <= last ->
  ustl.distance first last <= fuel ->
  exists m' m'',
    ustl.replace_if fuel m first last pred new_value = Some m' /\
    ustl.replace_if fuel m' first last pred new_value = Some m'' /\
    forall p, m'' p = m' p.
Proof.
  intros Hle Hfuel.
  destruct (replace_if_cells m Hle Hfuel pred new_value) as (m' & Hrun & Hm').
  destruct (replace_if_cells m' Hle Hfuel pred new_value)
    as (m'' & Hrun' & Hm'').
  exists m', m''. split; [assumption|]. split; [assumption|].
  intros p. rewrite Hm''.
  destruct ((first <=? p) && (p <? last)) eqn:Hin; [|reflexivity].
  simpl. destruct (pred (m' p)) eqn:Hp; [|reflexivity].
  rewrite Hm', Hin in Hp |- *. simpl in *.
  destruct (pred (m p)) eqn:Hp0; [reflexivity|]. congruence.
Qed.

Lemma replace_if_idempotent_witness :
  1 <= 5 /\
  ustl.distance 1 5 <= 4 /\
  exists m' m'',
    ustl.replace_if 4 (store_of [7; 1; 2; 3; 4; 8]) 1 5 is_even 6 = Some m' /\
    ustl.replace_if 4 m' 1 5 is_even 6 = Some m'' /\
    forall p, m'' p = m' p.
Proof.
  split; [lia|]. split; [vm_compute; lia|].
  apply (@replace_if_idempotent nat 4 (store_of [7; 1; 2; 3; 4; 8]) 1 5
           is_even 6).
  - lia.
  - vm_compute. lia.
Defined.

(** X8 -- after [replace_if] the range holds the old elements with
    [new_value] in the place of those that satisfied [pred].  If
    [new_value] does not satisfy [pred], no element of the range does any
    more: [count_if] returns 0 and [find_if] returns [last]; if it does,
    [count_if] returns what it returned before. *)
Theorem replace_if_then_count_if (T : Type) (fuel : nat) (m : ustl.mem T)
    (first last : ustl.cursor) (pred : T -> bool) (new_value : T) :
  first <= last ->
  ustl.distance first last <= fuel ->
  exists m' n n' r,
    ustl.replace_if fuel m first last pred new_value = Some m' /\
    ustl.range m' first last
      = map (fun x => if pred x then new_value else x)
            (ustl.range m first last) /\
    ustl.count_if fuel m first last pred = Some n /\
    ustl.count_if fuel m' first last pred = Some n' /\
    ustl.find_if fuel m' first last pred = Some r /\
    (pred new_value = false -> n' = 0 /\ r = last) /\
    (pred new_value = true -> n' = n).
Proof.
  intros Hle Hfuel.
  destruct (replace_if_cells m Hle Hfuel pred new_value) as (m' & Hrun & Hm').
  assert (Hrange : ustl.range m' first last
                   = map (fun x => if pred x then new_value else x)
                         (ustl.range m first last)).
  { apply cells_map_range. intros p Hp. rewrite Hm'.
    rewrite (proj2 (in_range_test first last p) Hp). reflexivity. }
  destruct (find_if_scan m' Hle Hfuel pred) as (r & Hfind & Hr & Hnone & Hat).
  exists m', (length (filter pred (ustl.range m first last))),
         (length (filter pred (ustl.range m' first last))), r.
  split; [assumption|]. split; [assumption|].
  split; [apply count_if_counts; assumption|].
  split; [apply count_if_counts; assumption|].
  split; [assumption|]. rewrite Hrange. split.
  - intros Hnv.
    assert (Hgone : forall x,
               In x (map (fun x => if pred x then new_value else x)
                         (ustl.range m first last)) -> pred x = false).
    { intros x Hx. apply in_map_iff in Hx. destruct Hx as (y & <- & _).
      destruct (pred y) eqn:Hy; assumption. }
    split; [apply filter_none; assumption|].
    destruct Hat as [|Hp]; [assumption|].
    destruct (Nat.eq_dec r last) as [|Hne]; [assumption|].
    rewrite Hgone in Hp; [discriminate|].
    rewrite <- Hrange. apply in_range. exists r. split; [lia|reflexivity].
  - intros Hnv. apply filter_after_replace. assumption.
Qed.

Lemma replace_if_then_count_if_witness :
  1 <= 5 /\
  ustl.distance 1 5 <= 4 /\
  exists m' n n' r,
    ustl.replace_if 4 (store_of [7; 1; 2; 3; 4; 8]) 1 5 is_even 9 = Some m' /\
    ustl.range m' 1 5
      = map (fun x => if is_even x then 9 else x)
            (ustl.range (store_of [7; 1; 2; 3; 4; 8]) 1 5) /\
    ustl.count_if 4 (store_of [7; 1; 2; 3; 4; 8]) 1 5 is_even = Some n /\
    ustl.count_if 4 m' 1 5 is_even = Some n' /\
    ustl.find_if 4 m' 1 5 is_even = Some r /\
    (is_even 9 = false -> n' = 0 /\ r = 5) /\
    (is_even 9 = true -> n' = n).
Proof.
  split; [lia|]. split; [vm_compute; lia|].
  apply (@replace_if_then_count_if nat 4 (store_of [7; 1; 2; 3; 4; 8]) 1 5
           is_even 9).
  - lia.
  - vm_compute. lia.
Defined.





(** X11 -- [remove_if] returns a cursor inside the range and writes only
    in front of it: the cells from the returned cursor on, those up to
    [last] too, and the cells before [first] hold what they held. *)
Theorem remove_if_writes_in_front (T : Type) (fuel : nat) (m : ustl.mem T)
    (first last : ustl.cursor) (pred : T -> bool) :
  first <= last ->
  ustl.distance first last <= fuel ->
  exists m' new_last,
    ustl.remove_if fuel m first last pred = Some (m', new_last) /\
    first <= new_last <= last /\
    (forall p, p < first \/ new_last <= p -> m' p = m p).
Proof.
  intros Hle Hfuel.
  destruct (@remove_copy_if_keeps_where_pred_holds T m first last first Hle
              fuel Hfuel (or_introl (le_n first)) pred)
    as (m' & Hrun & _ & Hframe).
  exists m', (first + length (filter pred (ustl.range m first last))).
  split; [assumption|]. split; [|assumption].
  pose proof (filter_length_le pred (ustl.range m first last)) as Hlen.
  rewrite range_length in Hlen. lia.
Qed.

Lemma remove_if_writes_in_front_witness :
  1 <= 5 /\
  ustl.distance 1 5 <= 4 /\
  exists m' new_last,
    ustl.remove_if 4 (store_of [7; 1; 2; 3; 4; 8]) 1 5 is_even
      = Some (m', new_last) /\
    1 <= new_last <= 5 /\
    (forall p, p < 1 \/ new_last <= p -> m' p = store_of [7; 1; 2; 3; 4; 8] p).
Proof.
  split; [lia|]. split; [vm_compute; lia|].
  apply (@remove_if_writes_in_front nat 4 (store_of [7; 1; 2; 3; 4; 8]) 1 5
           is_even).
  - lia.
  - vm_compute. lia.
Defined.

(** * Bisection on any range *)

Section AnyRange.
Variable T : Type.
Variable comp : T -> T -> bool.
Variable m : ustl.mem T.
Variable value : T.

(** A step of either loop leaves at most half of the interval. *)
Lemma lower_bound_body_halves (f l : ustl.cursor) :
  f < l ->
  ustl.distance (fst (ustl.lower_bound_body m value comp (f, l)))
                (snd (ustl.lower_bound_body m value comp (f, l)))
    <= ustl.distance f l / 2.
Proof.
  intros H. unfold ustl.lower_bound_body, ustl.advance, ustl.distance.
  pose proof (Nat.div_mod_eq (l - f) 2) as Hdiv.
  pose proof (Nat.mod_upper_bound (l - f) 2) as Hmod.
  destruct (comp _ value); cbn [fst snd]; lia.
Qed.

Lemma upper_bound_body_halves (f l : ustl.cursor) :
  f < l ->
  ustl.distance (fst (ustl.upper_bound_body m value comp (f, l)))
                (snd (ustl.upper_bound_body m value comp (f, l)))
    <= ustl.distance f l / 2.
Proof.
  intros H. unfold ustl.upper_bound_body, ustl.advance, ustl.distance.
  pose proof (Nat.div_mod_eq (l - f) 2) as Hdiv.
  pose proof (Nat.mod_upper_bound (l - f) 2) as Hmod.
  destruct (comp value _); cbn [fst snd]; lia.
Qed.

(** A loop whose body halves the interval stops within [k] iterations on
    an interval shorter than [2 ^ k]. *)
Lemma bisect_within (body : ustl.cursor * ustl.cursor ->
                            ustl.cursor * ustl.cursor) :
  (forall f l : ustl.cursor, f < l ->
     fst (body (f, l)) <= snd (body (f, l)) /\
     ustl.distance (fst (body (f, l))) (snd (body (f, l)))
       <= ustl.distance f l / 2) ->
  forall k (f l : ustl.cursor),
    f <= l -> ustl.distance f l < 2 ^ k ->
    exists s, ustl.while k ustl.bisect_cond body (f, l) = Some s.
Proof.
  intros Hbody k. induction k as [|k IH]; intros f l Hle Hlen;
    unfold ustl.distance in Hlen; simpl in Hlen.
  - assert (f = l) by lia. subst l. simpl. rewrite Nat.eqb_refl. simpl.
    eauto.
  - simpl. destruct (Nat.eq_dec f l) as [->|Hne].
    + rewrite Nat.eqb_refl. simpl. eauto.
    + rewrite (proj2 (Nat.eqb_neq f l) Hne). simpl.
      assert (Hlt : f < l) by lia.
      destruct (Hbody f l Hlt) as [Hvalid Hhalf].
      destruct (body (f, l)) as [f' l']. cbn [fst snd] in *.
      apply IH; [assumption|].
      assert ((l - f) / 2 < 2 ^ k)
        by (apply Nat.Div0.div_lt_upper_bound; lia).
      unfold ustl.distance in *. lia.
Qed.

Variables first last : ustl.cursor.
Hypothesis valid_range : first <= last.
Variable fuel : nat.
Hypothesis enough_fuel : ustl.distance first last <= fuel.

(** Whatever the order of the elements, [lower_bound] stops between an
    element ordered before [value] and one that is not. *)
Lemma lower_bound_boundary :
  exists p,
    ustl.lower_bound fuel m first last value comp = Some p /\
    first <= p <= last /\
    (first < p -> comp (m (p - 1)) value = true) /\
    (p < last -> comp (m p) value = false).
Proof.
  unfold ustl.lower_bound.
  run_loop
    (fun s : ustl.cursor * ustl.cursor =>
       (first <= fst s /\ fst s <= snd s /\ snd s <= last) /\
       (first < fst s -> comp (m (fst s - 1)) value = true) /\
       (snd s < last -> comp (m (snd s)) value = false))
    (fun s : ustl.cursor * ustl.cursor => ustl.distance (fst s) (snd s)).
  - intros [f l] (Hb & Hlow & Hhigh) Hc. apply neq_cursor in Hc.
    cbn [fst snd] in Hb, Hlow, Hhigh.
    assert (Hlt : f < l) by lia.
    pose proof (lower_bound_body_shrinks comp m value Hlt) as Hshrink.
    cbv beta. split; [|cbn [fst snd]; apply Hshrink].
    split; [lia|]. clear Hshrink.
    unfold ustl.lower_bound_body.
    set (mid := ustl.advance f (ustl.distance f l / 2)) in *.
    destruct (comp (m mid) value) eqn:Hcmp; cbn [fst snd];
      split; try assumption.
    + intros _. replace (mid + 1 - 1) with mid by lia. assumption.
    + intros _. assumption.
  - cbn [fst snd]. split; [lia|]. split; intros; lia.
  - exact enough_fuel.
  - destruct sfin as [f l]. cbn [fst snd] in *. apply eq_cursor in Hstop.
    subst l. exists f. split; [reflexivity|]. split; [lia|]. tauto.
Qed.

Lemma upper_bound_boundary :
  exists p,
    ustl.upper_bound fuel m first last value comp = Some p /\
    first <= p <= last /\
    (first < p -> comp value (m (p - 1)) = false) /\
    (p < last -> comp value (m p) = true).
Proof.
  unfold ustl.upper_bound.
  run_loop
    (fun s : ustl.cursor * ustl.cursor =>
       (first <= fst s /\ fst s <= snd s /\ snd s <= last) /\
       (first < fst s -> comp value (m (fst s - 1)) = false) /\
       (snd s < last -> comp value (m (snd s)) = true))
    (fun s : ustl.cursor * ustl.cursor => ustl.distance (fst s) (snd s)).
  - intros [f l] (Hb & Hlow & Hhigh) Hc. apply neq_cursor in Hc.
    cbn [fst snd] in Hb, Hlow, Hhigh.
    assert (Hlt : f < l) by lia.
    pose proof (upper_bound_body_shrinks comp m value Hlt) as Hshrink.
    cbv beta. split; [|cbn [fst snd]; apply Hshrink].
    split; [lia|]. clear Hshrink.
    unfold ustl.upper_bound_body.
    set (mid := ustl.advance f (ustl.distance f l / 2)) in *.
    destruct (comp value (m mid)) eqn:Hcmp; cbn [fst snd];
      split; try assumption.
    + intros _. assumption.
    + intros _. replace (mid + 1 - 1) with mid by lia. assumption.
  - cbn [fst snd]. split; [lia|]. split; intros; lia.
  - exact enough_fuel.
  - destruct sfin as [f l]. cbn [fst snd] in *. apply eq_cursor in Hstop.
    subst l. exists f. split; [reflexivity|]. split; [lia|]. tauto.
Qed.
End AnyRange.

(** A loop that has stopped stops in the same state on any more fuel. *)
Lemma while_more_fuel (S : Type) (cond : S -> bool) (body : S -> S)
    (k : nat) :
  forall (s r : S),
    ustl.while k cond body s = Some r ->
    forall j, k <= j -> ustl.while j cond body s = Some r.
Proof.
  induction k as [|k IH]; intros s r Hrun j Hj; simpl in Hrun.
  - destruct j; simpl; destruct (cond s); congruence.
  - destruct j as [|j]; [lia|]. simpl.
    destruct (cond s); [|assumption]. apply IH; [assumption|lia].
Qed.

(** X12 -- on any valid range, sorted or not, and with any comparator,
    [lower_bound] returns a position of the range such that the element
    just before it, if there is one, is ordered before [value] and the
    element at it, if there is one, is not. *)
Theorem lower_bound_between_neighbours (T : Type) (fuel : nat)
    (m : ustl.mem T) (first last : ustl.cursor) (value : T)
    (comp : T -> T -> bool) :
  first <= last ->
  ustl.distance first last <= fuel ->
  exists p,
    ustl.lower_bound fuel m first last value comp = Some p /\
    first <= p <= last /\
    (first < p -> comp (m (p - 1)) value = true) /\
    (p < last -> comp (m p) value = false).
Proof.
  intros Hle Hfuel. apply lower_bound_boundary; assumption.
Qed.

Lemma lower_bound_between_neighbours_witness :
  0 <= 5 /\
  ustl.distance 0 5 <= 5 /\
  exists p,
    ustl.lower_bound 5 (store_of [5; 1; 4; 2; 3]) 0 5 3 Nat.ltb = Some p /\
    0 <= p <= 5 /\
    (0 < p -> Nat.ltb (store_of [5; 1; 4; 2; 3] (p - 1)) 3 = true) /\
    (p < 5 -> Nat.ltb (store_of [5; 1; 4; 2; 3] p) 3 = false).
Proof.
  split; [lia|]. split; [vm_compute; lia|].
  apply (@lower_bound_between_neighbours nat 5 (store_of [5; 1; 4; 2; 3]) 0 5
           3 Nat.ltb).
  - lia.
  - vm_compute. lia.
Defined.

(** X13 -- on any valid range, sorted or not, and with any comparator,
    [upper_bound] returns a position of the range such that the element
    just before it, if there is one, is not ordered after [value] and the
    element at it, if there is one, is. *)
Theorem upper_bound_between_neighbours (T : Type) (fuel : nat)
    (m : ustl.mem T) (first last : ustl.cursor) (value : T)
    (comp : T -> T -> bool) :
  first <= last ->
  ustl.distance first last <= fuel ->
  exists p,
    ustl.upper_bound fuel m first last value comp = Some p /\
    first <= p <= last /\
    (first < p -> comp value (m (p - 1)) = false) /\
    (p < last -> comp value (m p) = true).
Proof.
  intros Hle Hfuel. apply upper_bound_boundary; assumption.
Qed.

Lemma upper_bound_between_neighbours_witness :
  0 <= 5 /\
  ustl.distance 0 5 <= 5 /\
  exists p,
    ustl.upper_bound 5 (store_of [5; 1; 4; 2; 3]) 0 5 3 Nat.ltb = Some p /\
    0 <= p <= 5 /\
    (0 < p -> Nat.ltb 3 (store_of [5; 1; 4; 2; 3] (p - 1)) = false) /\
    (p < 5 -> Nat.ltb 3 (store_of [5; 1; 4; 2; 3] p) = true).
Proof.
  split; [lia|]. split; [vm_compute; lia|].
  apply (@upper_bound_between_neighbours nat 5 (store_of [5; 1; 4; 2; 3]) 0 5
           3 Nat.ltb).
  - lia.
  - vm_compute. lia.
Defined.

(** X14 -- [binary_search] reports no false hit: on any valid range,
    sorted or not, and with any comparator, it returns [last] or a position
    of the range whose element is equivalent to [value]. *)
Theorem binary_search_no_false_hit (T : Type) (fuel : nat)
    (m : ustl.mem T) (first last : ustl.cursor) (value : T)
    (comp : T -> T -> bool) :
  first <= last ->
  ustl.distance first last <= fuel ->
  exists r,
    ustl.binary_search fuel m first last value comp = Some r /\
    (r = last \/ first <= r < last /\ equivalent comp (m r) value).
Proof.
  intros Hle Hfuel.
  destruct (lower_bound_boundary comp m value Hle Hfuel)
    as (p & Hrun & Hp & _ & Hat).
  unfold ustl.binary_search. rewrite Hrun. simpl ustl.bind.
  eexists. split; [reflexivity|].
  destruct (Nat.eq_dec p last) as [->|Hne].
  - rewrite Nat.eqb_refl. left. reflexivity.
  - rewrite (proj2 (Nat.eqb_neq p last) Hne). simpl.
    destruct (comp value (m p)) eqn:Hcmp; [left; reflexivity|].
    right. split; [lia|]. split; [apply Hat; lia|assumption].
Qed.

Lemma binary_search_no_false_hit_witness :
  0 <= 5 /\
  ustl.distance 0 5 <= 5 /\
  exists r,
    ustl.binary_search 5 (store_of [5; 1; 4; 2; 3]) 0 5 4 Nat.ltb = Some r /\
    (r = 5 \/
     0 <= r < 5 /\ equivalent Nat.ltb (store_of [5; 1; 4; 2; 3] r) 4).
Proof.
  split; [lia|]. split; [vm_compute; lia|].
  apply (@binary_search_no_false_hit nat 5 (store_of [5; 1; 4; 2; 3]) 0 5
           4 Nat.ltb).
  - lia.
  - vm_compute. lia.
Defined.

(** X15 -- the bisection loops are logarithmic: on a valid range of fewer
    than [2 ^ k] elements [lower_bound] and [upper_bound] stop within [k]
    iterations, each with one call of the comparator, and more iterations
    allowed change nothing of what they return. *)
Theorem bisection_logarithmic (T : Type) (k : nat) (m : ustl.mem T)
    (first last : ustl.cursor) (value : T) (comp : T -> T -> bool) :
  first <= last ->
  ustl.distance first last < 2 ^ k ->
  exists p q,
    ustl.lower_bound k m first last value comp = Some p /\
    ustl.upper_bound k m first last value comp = Some q /\
    forall fuel, k <= fuel ->
      ustl.lower_bound fuel m first last value comp = Some p /\
      ustl.upper_bound fuel m first last value comp = Some q.
Proof.
  intros Hle Hlen.
  destruct (@bisect_within (ustl.lower_bound_body m value comp)) with
    (k := k) (f := first) (l := last) as ([p p'] & Hlow);
    [|assumption|assumption|].
  { intros f l Hlt. split.
    - apply (lower_bound_body_shrinks comp m value Hlt).
    - apply lower_bound_body_halves. assumption. }
  destruct (@bisect_within (ustl.upper_bound_body m value comp)) with
    (k := k) (f := first) (l := last) as ([q' q] & Hupp);
    [|assumption|assumption|].
  { intros f l Hlt. split.
    - apply (upper_bound_body_shrinks comp m value Hlt).
    - apply upper_bound_body_halves. assumption. }
  exists p, q. unfold ustl.lower_bound, ustl.upper_bound.
  rewrite Hlow, Hupp. split; [reflexivity|]. split; [reflexivity|].
  intros fuel Hfuel.
  rewrite (@while_more_fuel _ _ _ _ _ _ Hlow _ Hfuel).
  rewrite (@while_more_fuel _ _ _ _ _ _ Hupp _ Hfuel).
  split; reflexivity.
Qed.

Lemma bisection_logarithmic_witness :
  0 <= 6 /\
  ustl.distance 0 6 < 2 ^ 3 /\
  exists p q,
    ustl.lower_bound 3 scenario 0 6 3 Nat.ltb = Some p /\
    ustl.upper_bound 3 scenario 0 6 3 Nat.ltb = Some q /\
    forall fuel, 3 <= fuel ->
      ustl.lower_bound fuel scenario 0 6 3 Nat.ltb = Some p /\
      ustl.upper_bound fuel scenario 0 6 3 Nat.ltb = Some q.
Proof.
  split; [lia|]. split; [vm_compute; lia|].
  apply (@bisection_logarithmic nat 3 scenario 0 6 3 Nat.ltb).
  - lia.
  - vm_compute. lia.
Defined.

(** X16 -- on a range sorted under a strict weak ordering, the subrange
    that [equal_range] returns holds every element equivalent to [value]
    and only those; it is empty exactly when [value] does not occur, which
    is exactly when [binary_search] returns [last]. *)
Theorem equal_range_holds_the_equivalents (T : Type) (fuel : nat)
    (m : ustl.mem T) (first last : ustl.cursor) (value : T)
    (comp : T -> T -> bool) :
  StrictWeakOrdering comp ->
  sorted_range comp m first last ->
  first <= last ->
  ustl.distance first last <= fuel ->
  exists lb ub r,
    ustl.equal_range fuel m first last value comp = Some (lb, ub) /\
    ustl.binary_search fuel m first last value comp = Some r /\
    (forall j, first <= j < last ->
       (equivalent comp (m j) value <-> lb <= j < ub)) /\
    (lb = ub <-> ~ occurs comp m first last value) /\
    (lb = ub <-> r = last).
Proof.
  intros Hswo Hsorted Hle Hfuel.
  destruct (equal_range_scan value Hle Hfuel Hswo Hsorted)
    as (lb & ub & Hlb & Hub & Hrun & H1 & H2 & H3 & Hnot_before & Hnot_after).
  destruct (lower_bound_splits value Hle Hfuel Hswo Hsorted)
    as (lb' & Hlb' & _ & Hlo & _).
  destruct (upper_bound_splits value Hle Hfuel Hswo Hsorted)
    as (ub' & Hub' & _ & _ & Hhi).
  rewrite Hlb in Hlb'. injection Hlb' as <-.
  rewrite Hub in Hub'. injection Hub' as <-.
  assert (Hin : forall j, first <= j < last ->
                  (equivalent comp (m j) value <-> lb <= j < ub)).
  { intros j Hj. split.
    - intros [Hjv Hvj]. split.
      + destruct (le_lt_dec lb j) as [|Hlt]; [assumption|].
        rewrite Hlo in Hjv by lia. discriminate.
      + destruct (le_lt_dec ub j) as [Hge|]; [|assumption].
        rewrite Hhi in Hvj by lia. discriminate.
    - intros Hj'. split; [apply Hnot_before | apply Hnot_after]; lia. }
  exists lb, ub. unfold ustl.binary_search. rewrite Hlb. simpl ustl.bind.
  eexists. split; [assumption|]. split; [reflexivity|].
  split; [assumption|]. split.
  - split.
    + intros -> (j & Hj & Hequiv). apply Hin in Hequiv; lia.
    + intros Hnone. destruct (Nat.eq_dec lb ub) as [|Hne]; [assumption|].
      exfalso. apply Hnone. exists lb. split; [lia|]. apply Hin; lia.
  - destruct (Nat.eq_dec lb last) as [->|Hne].
    + rewrite Nat.eqb_refl. simpl. split; [reflexivity|lia].
    + rewrite (proj2 (Nat.eqb_neq lb last) Hne). simpl.
      destruct (comp value (m lb)) eqn:Hcmp.
      * split; [reflexivity|]. intros _.
        destruct (Nat.eq_dec lb ub) as [|Hne']; [assumption|].
        rewrite Hnot_after in Hcmp by lia. discriminate.
      * split; [|intros; contradiction].
        intros <-. rewrite Hhi in Hcmp by lia. discriminate.
Qed.

Lemma equal_range_holds_the_equivalents_witness :
  StrictWeakOrdering Nat.ltb /\
  sorted_range Nat.ltb scenario 0 6 /\
  0 <= 6 /\
  ustl.distance 0 6 <= 6 /\
  exists lb ub r,
    ustl.equal_range 6 scenario 0 6 3 Nat.ltb = Some (lb, ub) /\
    ustl.binary_search 6 scenario 0 6 3 Nat.ltb = Some r /\
    (forall j, 0 <= j < 6 ->
       (equivalent Nat.ltb (scenario j) 3 <-> lb <= j < ub)) /\
    (lb = ub <-> ~ occurs Nat.ltb scenario 0 6 3) /\
    (lb = ub <-> r = 6).
Proof.
  split; [exact ltb_strict_weak_ordering|].
  split; [exact scenario_sorted|].
  split; [lia|]. split; [vm_compute; lia|].
  apply (@equal_range_holds_the_equivalents nat 6 scenario 0 6 3 Nat.ltb).
  - exact ltb_strict_weak_ordering.
  - exact scenario_sorted.
  - lia.
  - vm_compute. lia.
Defined.

(** * What the searches read *)

(** Two loops that test and step alike on the states of an invariant run
    alike. *)
Lemma while_agree (S : Type) (cond cond' : S -> bool) (body body' : S -> S)
    (Inv : S -> Prop) :
  (forall s, Inv s ->
     cond' s = cond s /\
     (cond s = true -> body' s = body s /\ Inv (body s))) ->
  forall fuel s, Inv s ->
    ustl.while fuel cond' body' s = ustl.while fuel cond body s.
Proof.
  intros Hsame fuel. induction fuel as [|n IH]; intros s Hs; simpl;
    destruct (Hsame s Hs) as [-> Hstep]; destruct (cond s); try reflexivity.
  destruct (Hstep eq_refl) as [-> Hnext]. apply IH. assumption.
Qed.


Section Reads.
Variable T : Type.
Variables m m' : ustl.mem T.
Variables first last : ustl.cursor.
Hypothesis valid_range : first <= last.
Hypothesis same_range : forall p, first <= p < last -> m' p = m p.
Variable fuel : nat.






Lemma find_if_reads_range (pred : T -> bool) :
  ustl.find_if fuel m' first last pred = ustl.find_if fuel m first last pred.
Proof.
  unfold ustl.find_if.
  apply while_agree with (Inv := fun s : ustl.cursor => first <= s <= last);
    [|lia].
  intros s Hs. destruct (Nat.eq_dec s last) as [->|Hne].
  - rewrite Nat.eqb_refl. simpl. split; [reflexivity|discriminate].
  - rewrite same_range by lia. split; [reflexivity|]. intros _.
    split; [reflexivity|lia].
Qed.

Lemma count_if_reads_range (pred : T -> bool) :
  ustl.count_if fuel m' first last pred
  = ustl.count_if fuel m first last pred.
Proof.
  unfold ustl.count_if. f_equal.
  apply while_agree with
    (Inv := fun s : ustl.cursor * nat => first <= fst s <= last);
    [|cbn [fst snd]; lia].
  intros [f total] Hs. cbn [fst snd] in Hs. split; [reflexivity|].
  intros Hc. apply neq_cursor in Hc. rewrite same_range by lia.
  split; [reflexivity|]. destruct (pred (m f)); cbn [fst snd]; lia.
Qed.

Lemma adjacent_find_reads_range (p : T -> T -> bool) :
  ustl.adjacent_find fuel m' first last p
  = ustl.adjacent_find fuel m first last p.
Proof.
  unfold ustl.adjacent_find.
  destruct (negb (first =? last)) eqn:Hne; [|reflexivity].
  apply neq_cursor in Hne. f_equal.
  apply while_agree with
    (Inv := fun s : ustl.cursor * ustl.cursor * option ustl.cursor =>
              match snd s with
              | None => first <= fst (fst s) /\
                        snd (fst s) = fst (fst s) + 1 /\
                        snd (fst s) <= last
              | Some _ => True
              end);
    [|cbn [fst snd]; lia].
  intros [[prev f] [r|]] Hs; cbn [fst snd] in Hs.
  - split; [reflexivity|discriminate].
  - split; [reflexivity|]. intros Hc. apply neq_cursor in Hc.
    rewrite !same_range by lia. split; [reflexivity|].
    destruct (p (m prev) (m f)); cbn [fst snd]; [exact I|lia].
Qed.
End Reads.

Section ReadsOfMismatch.
Variable T : Type.
Variables m m' : ustl.mem T.
Variables first1 last1 first2 : ustl.cursor.
Hypothesis valid_range : first1 <= last1.
Hypothesis same_first :
  forall i, i < ustl.distance first1 last1 -> m' (first1 + i) = m (first1 + i).
Hypothesis same_second :
  forall i, i < ustl.distance first1 last1 -> m' (first2 + i) = m (first2 + i).
Variable fuel : nat.

Lemma mismatch_reads_ranges (comp : T -> T -> bool) :
  ustl.mismatch fuel m' first1 last1 first2 comp
  = ustl.mismatch fuel m first1 last1 first2 comp.
Proof.
  unfold ustl.mismatch.
  apply while_agree with
    (Inv := fun s : ustl.cursor * ustl.cursor =>
              exists k, s = (first1 + k, first2 + k) /\ first1 + k <= last1).
  - intros [f1 f2] (k & Heq & Hk). injection Heq as -> ->.
    destruct (Nat.eq_dec (first1 + k) last1) as [Hend|Hne].
    + rewrite Hend, Nat.eqb_refl. simpl. split; [reflexivity|discriminate].
    + unfold ustl.distance in *.
      rewrite same_first, same_second by lia.
      split; [reflexivity|]. intros _. split; [reflexivity|].
      exists (k + 1). split; [f_equal; lia|lia].
  - exists 0. rewrite !Nat.add_0_r. split; [reflexivity|assumption].
Qed.
End ReadsOfMismatch.



(** X18 -- [find_if], [count_if] and [adjacent_find] read only elements of
    the range: on two stores that hold the same elements in
    [[first, last)] they return the same. *)
Theorem scans_read_only_the_range (T : Type) (fuel : nat)
    (m m' : ustl.mem T) (first last : ustl.cursor) (pred : T -> bool)
    (p : T -> T -> bool) :
  first <= last ->
  (forall q, first <= q < last -> m' q = m q) ->
  ustl.find_if fuel m' first last pred
    = ustl.find_if fuel m first last pred /\
  ustl.count_if fuel m' first last pred
    = ustl.count_if fuel m first last pred /\
  ustl.adjacent_find fuel m' first last p
    = ustl.adjacent_find fuel m first last p.
Proof.
  intros Hle Hsame. split; [|split].
  - apply find_if_reads_range; assumption.
  - apply count_if_reads_range; assumption.
  - apply adjacent_find_reads_range; assumption.
Qed.

Lemma scans_read_only_the_range_witness :
  0 <= 3 /\
  (forall q, 0 <= q < 3 -> store_of [1; 3; 5; 6; 6] q = store_of [1; 3; 5] q) /\
  ustl.find_if 3 (store_of [1; 3; 5; 6; 6]) 0 3 is_even
    = ustl.find_if 3 (store_of [1; 3; 5]) 0 3 is_even /\
  ustl.count_if 3 (store_of [1; 3; 5; 6; 6]) 0 3 is_even
    = ustl.count_if 3 (store_of [1; 3; 5]) 0 3 is_even /\
  ustl.adjacent_find 3 (store_of [1; 3; 5; 6; 6]) 0 3 Nat.eqb
    = ustl.adjacent_find 3 (store_of [1; 3; 5]) 0 3 Nat.eqb.
Proof.
  assert (Hsame : forall q, 0 <= q < 3 ->
                    store_of [1; 3; 5; 6; 6] q = store_of [1; 3; 5] q).
  { intros q Hq. do 3 (destruct q as [|q]; [reflexivity|]). lia. }
  split; [lia|]. split; [exact Hsame|].
  apply (@scans_read_only_the_range nat 3 (store_of [1; 3; 5])
           (store_of [1; 3; 5; 6; 6]) 0 3 is_even Nat.eqb).
  - lia.
  - exact Hsame.
Defined.

(** X19 -- [mismatch] and [equal] read the first range and as many
    elements from [first2] on, and nothing else: on two stores that hold
    the same elements there they return the same. *)
Theorem mismatch_reads_only_the_ranges (T : Type) (fuel : nat)
    (m m' : ustl.mem T) (first1 last1 first2 : ustl.cursor)
    (comp : T -> T -> bool) :
  first1 <= last1 ->
  (forall i, i < ustl.distance first1 last1 ->
             m' (first1 + i) = m (first1 + i)) ->
  (forall i, i < ustl.distance first1 last1 ->
             m' (first2 + i) = m (first2 + i)) ->
  ustl.mismatch fuel m' first1 last1 first2 comp
    = ustl.mismatch fuel m first1 last1 first2 comp /\
  ustl.equal fuel m' first1 last1 first2 comp
    = ustl.equal fuel m first1 last1 first2 comp.
Proof.
  intros Hle Hsame1 Hsame2.
  assert (Hmis : ustl.mismatch fuel m' first1 last1 first2 comp
                 = ustl.mismatch fuel m first1 last1 first2 comp)
    by (apply mismatch_reads_ranges; assumption).
  split; [assumption|]. unfold ustl.equal. rewrite Hmis. reflexivity.
Qed.

Lemma mismatch_reads_only_the_ranges_witness :
  0 <= 2 /\
  (forall i, i < ustl.distance 0 2 ->
             store_of [1; 2; 8; 1; 2; 9] (0 + i)
             = store_of [1; 2; 3; 1; 2; 4] (0 + i)) /\
  (forall i, i < ustl.distance 0 2 ->
             store_of [1; 2; 8; 1; 2; 9] (3 + i)
             = store_of [1; 2; 3; 1; 2; 4] (3 + i)) /\
  ustl.mismatch 2 (store_of [1; 2; 8; 1; 2; 9]) 0 2 3 Nat.eqb
    = ustl.mismatch 2 (store_of [1; 2; 3; 1; 2; 4]) 0 2 3 Nat.eqb /\
  ustl.equal 2 (store_of [1; 2; 8; 1; 2; 9]) 0 2 3 Nat.eqb
    = ustl.equal 2 (store_of [1; 2; 3; 1; 2; 4]) 0 2 3 Nat.eqb.
Proof.
  assert (Hsame1 : forall i, i < ustl.distance 0 2 ->
                     store_of [1; 2; 8; 1; 2; 9] (0 + i)
                     = store_of [1; 2; 3; 1; 2; 4] (0 + i)).
  { intros i Hi. unfold ustl.distance in Hi.
    do 2 (destruct i as [|i]; [reflexivity|]). lia. }
  assert (Hsame2 : forall i, i < ustl.distance 0 2 ->
                     store_of [1; 2; 8; 1; 2; 9] (3 + i)
                     = store_of [1; 2; 3; 1; 2; 4] (3 + i)).
  { intros i Hi. unfold ustl.distance in Hi.
    do 2 (destruct i as [|i]; [reflexivity|]). lia. }
  split; [lia|]. split; [exact Hsame1|]. split; [exact Hsame2|].
  apply (@mismatch_reads_only_the_ranges nat 2 (store_of [1; 2; 3; 1; 2; 4])
           (store_of [1; 2; 8; 1; 2; 9]) 0 2 3 Nat.eqb).
  - lia.
  - exact Hsame1.
  - exact Hsame2.
Defined.
